(** * Verification of [api/server/backend/build/backend.go]

    A shallow embedding of the build backend of the Docker API server:
    [Backend.Build] and its two helpers [pushImage] and [squashBuild].

    The three functions are sequential Go code that drives external
    collaborators (the build manager, the image component, the registry
    service, the tagger).  Collaborators are parameters of the development;
    each call made by the embedded code is recorded in a trace, so that
    "is invoked", "is never invoked" and "is passed" are statements about
    the trace of a run. *)

From Stdlib Require Import Ascii String.
From stdpp Require Import base option list strings gmap fin_maps sorting.

Set Default Proof Using "Type".
Open Scope string_scope.
Open Scope nat_scope.
Open Scope list_scope.

(** ** Go errors

    A Go [error] is either [nil] or an error value; [option error] is used
    wherever the source has a variable of type [error], [None] being [nil].
    Error values are leaf errors, as the collaborators produce them, or an
    error wrapped by [errors.Wrap] of [github.com/pkg/errors]. *)

Module errors.

Inductive error : Type :=
| New (msg : string)
| withMessage (cause : error) (msg : string).

(** [errors.Wrap(err, message)]: [nil] stays [nil]. *)
Definition Wrap (err : option error) (message : string) : option error :=
  match err with
  | None => None
  | Some e => Some (withMessage e message)
  end.

(** The [Error()] method: the message, a colon, and the cause's text. *)
Fixpoint Error (e : error) : string :=
  match e with
  | New msg => msg
  | withMessage cause msg => msg +:+ ": " +:+ Error cause
  end.

(** [errors.Cause]: the innermost error. *)
Fixpoint Cause (e : error) : error :=
  match e with
  | New msg => New msg
  | withMessage cause _ => Cause cause
  end.

#[global] Instance error_eq_dec : EqDecision error.
Proof. solve_decision. Defined.

End errors.

Abbreviation error := errors.error.

(** ** Go slices of strings

    [options.Tags] is a [[]string]: a window (pointer, offset, length,
    capacity) on a backing array that the caller and [Build] share.  The
    backing arrays live in a heap; [append] writes in place when the window
    has spare capacity and allocates a fresh array otherwise. *)

Module slice.

Abbreviation loc := positive.

Record t : Type := Slice {
  ptr : loc;      (* the backing array *)
  off : nat;      (* index of the window's first cell in that array *)
  len : nat;
  cap : nat
}.

Abbreviation heap := (gmap loc (list string)).

(** The [nil] slice: no backing array is ever read through it. *)
Definition nil : t := Slice 1%positive 0 0 0.

(** The invariant the Go runtime maintains for every slice value. *)
Definition wf (h : heap) (s : t) : Prop :=
  len s ≤ cap s ∧
  (cap s = 0 ∨ ∃ a, h !! ptr s = Some a ∧ off s + cap s ≤ length a).

(** The elements [s[0], ..., s[len(s)-1]]. *)
Definition contents (h : heap) (s : t) : list string :=
  match h !! ptr s with
  | Some a => take (len s) (drop (off s) a)
  | None => []
  end.

(** The capacity of the array allocated when a slice of capacity
    [oldcap] must hold [needed] elements.  The runtime's growth policy
    [grow] is a parameter; the result is never less than [needed]. *)
Definition newcap (grow : nat → nat → nat) (oldcap needed : nat) : nat :=
  needed `max` grow oldcap needed.

(** [append(s, x)] when the capacity does not suffice: the elements are
    copied to a fresh array, followed by [x] and zero values. *)
Definition grow_append (grow : nat → nat → nat) (h : heap) (s : t) (x : string)
  : heap * t :=
  let c := newcap grow (cap s) (S (len s)) in
  let l := fresh (dom h) in
  (<[l := contents h s ++ x :: replicate (c - S (len s)) ""]> h,
   Slice l 0 (S (len s)) c).

(** [append(s, x)] *)
Definition append (grow : nat → nat → nat) (h : heap) (s : t) (x : string)
  : heap * t :=
  match h !! ptr s with
  | Some a =>
      if decide (len s < cap s) then
        (<[ptr s := <[off s + len s := x]> a]> h,
         Slice (ptr s) (off s) (S (len s)) (cap s))
      else grow_append grow h s x
  | None => grow_append grow h s x
  end.

End slice.

(** [image.ID] is a string type of its own; the conversion [image.ID(s)]
    of the source is the constructor. *)
Module image.
Inductive ID : Type := ofString (s : string).
Definition String (id : ID) : string := let 'ofString s := id in s.
End image.

(** ** The package [build] *)

Section build.

(** Types the source imports and never looks into. *)
Context {W : Type}.          (* the state of the external collaborators *)
Context {Ctx : Type}.        (* context.Context *)
Context {Writer : Type}.     (* io.Writer *)
Context {Named : Type}.      (* reference.Named *)
Context {IndexInfo : Type}.  (* registrytypes.IndexInfo *)
Context {AuthConfig : Type}. (* types.AuthConfig *)
Context {Tagger : Type}.     (* *Tagger, of this package's tag.go *)

(** A call into a collaborator: it may change the collaborators' state. *)
Definition Ext (A : Type) : Type := W → W * A.

(** *** Data model *)

(** [builder.Image]: the source only calls its [ImageID()] method. *)
Record Image : Type := { Image_ImageID : string }.

(** [builder.Result] *)
Record Result : Type := {
  ImageID : string;
  FromImage : option Image     (* [None] is the [nil] interface value *)
}.

(** [types.ImageBuildOptions], the fields [Build] reads. *)
Record ImageBuildOptions : Type := {
  Tags : slice.t;
  PushAs : string;
  Squash : bool;
  AuthConfigs : gmap string AuthConfig
}.

(** [backend.ProgressWriter] *)
Record ProgressWriter : Type := { StdoutFormatter : Writer }.

(** [backend.BuildConfig] *)
Record BuildConfig : Type := {
  ProgressWriter_ : ProgressWriter;
  Options : ImageBuildOptions
}.

(** [registry.RepositoryInfo], the field [pushImage] reads. *)
Record RepositoryInfo : Type := { Index : IndexInfo }.

(** [progress.Output] as built by [streamformatter.NewProgressOutput]. *)
Inductive ProgressOutput : Type := NewProgressOutput (out : Writer).

(** *** Collaborators *)

(** [ImageComponent] provides an interface for working with images. *)
Class ImageComponent : Type := {
  SquashImage : string → string → Ext (string * option error);
  TagImageWithReference : image.ID → Named → Ext (option error);
  PushImage : Ctx → string → string → gmap string (list string) →
              AuthConfig → ProgressOutput → Ext (option error)
}.

(** [*dockerfile.BuildManager]: its [Build] method is the build engine.
    A [nil] error comes with a result, an error with none that is read. *)
Record BuildManager : Type := {
  BuildManager_Build : Ctx → BuildConfig → Ext (Result + error)
}.

(** [registry.Service], the method [pushImage] calls. *)
Record Service : Type := {
  ResolveRepository : Named → Ext (RepositoryInfo + error)
}.

(** [Backend] provides build functionality to the API router. *)
Record Backend : Type := {
  manager : BuildManager;
  imageComponent : ImageComponent;
  registryService : Service
}.

(** Functions of other packages and of [tag.go] that the source calls.
    They are not part of the embedded file and are taken as parameters. *)
Class Imports : Type := {
  (* the runtime's capacity policy for [append] *)
  growslice : nat → nat → nat;
  (* tag.go *)
  NewTagger : ImageComponent → Writer → list string → Tagger + error;
  TagImages : Tagger → image.ID → Ext (option error);
  (* reference *)
  ParseNormalizedNamed : string → Named + error;
  Named_String : Named → string;
  (* registry *)
  ResolveAuthConfig : gmap string AuthConfig → IndexInfo → AuthConfig;
  (* stringid *)
  TruncateID : string → string;
  (* io.Writer, as used by fmt.Fprintf; the outcome is dropped *)
  Writer_Write : Writer → string → Ext unit
}.

Context `{!Imports}.

(** *** Runs

    A run threads the heap of slice backing arrays and the collaborators'
    state, and records every call the embedded code makes. *)

Inductive Event : Type :=
| CallNewTagger (stdout : Writer) (names : list string)
| CallBuild (ctx : Ctx) (config : BuildConfig)
| CallSquashImage (from to : string)
| CallFprintf (w : Writer) (text : string)
| CallTagImages (t : Tagger) (id : image.ID)
| CallParseNormalizedNamed (s : string)
| CallResolveRepository (ref : Named)
| CallPushImage (ctx : Ctx) (image tag : string)
                (metaHeaders : gmap string (list string))
                (authConfig : AuthConfig) (output : ProgressOutput).

Record State : Type := {
  heap : slice.heap;
  world : W;
  trace : list Event
}.

Definition M (A : Type) : Type := State → State * A.

Definition ret {A} (a : A) : M A := λ s, (s, a).

Definition bind {A B} (m : M A) (k : A → M B) : M B :=
  λ s, let '(s', a) := m s in k a s'.

Notation "'let*' x ':=' m 'in' k" := (bind m (λ x, k))
  (at level 10, x pattern, m at level 100, k at level 200, only parsing).

Definition record (ev : Event) : M unit :=
  λ s, ({| heap := heap s; world := world s; trace := trace s ++ [ev] |}, tt).

(** A call into a collaborator, recorded before it runs. *)
Definition call {A} (ev : Event) (f : Ext A) : M A :=
  let* _ := record ev in
  λ s, let '(w, a) := f (world s) in
       ({| heap := heap s; world := w; trace := trace s |}, a).

(** A call of a function without effects. *)
Definition call_pure {A} (ev : Event) (a : A) : M A :=
  let* _ := record ev in ret a.

(** [append(tags, x)] on the heap of the run. *)
Definition append (tags : slice.t) (x : string) : M slice.t :=
  λ s, let '(h, tags') := slice.append growslice (heap s) tags x in
       ({| heap := h; world := world s; trace := trace s |}, tags').

(** Reading the elements of a slice handed to a callee. *)
Definition elements (tags : slice.t) : M (list string) :=
  λ s, (s, slice.contents (heap s) tags).

Definition LF : string := String "010"%char "".

(** *** squashBuild *)

Definition squashBuild (build : Result) (imageComponent : ImageComponent)
  : M (string * option error) :=
  let fromID :=
    match FromImage build with
    | Some img => Image_ImageID img
    | None => ""
    end in
  let* (imageID, err) :=
    call (CallSquashImage (ImageID build) fromID)
         (SquashImage (ImageID build) fromID) in
  match err with
  | Some _ => ret ("", errors.Wrap err "error squashing image")
  | None => ret (imageID, None)
  end.

(** *** pushImage *)

Definition pushImage (b : Backend) (ctx : Ctx) (pushAs : string)
    (authConfigs : gmap string AuthConfig) (output : Writer)
  : M (option error) :=
  let* r := call_pure (CallParseNormalizedNamed pushAs)
                      (ParseNormalizedNamed pushAs) in
  match r with
  | inr err => ret (Some err)
  | inl ref =>
    let* r := call (CallResolveRepository ref)
                   (ResolveRepository (registryService b) ref) in
    match r with
    | inr err => ret (Some err)
    | inl repoInfo =>
      let authConfig := ResolveAuthConfig authConfigs (Index repoInfo) in
      call (CallPushImage ctx (Named_String ref) "" ∅ authConfig
                          (NewProgressOutput output))
           (PushImage (ImageComponent := imageComponent b)
                      ctx (Named_String ref) "" ∅ authConfig
                      (NewProgressOutput output))
    end
  end.

(** *** Build builds an image from a Source *)

(** The first statements of [Build]: the slice handed to [NewTagger]. *)
Definition effectiveTags (options : ImageBuildOptions) : M slice.t :=
  let tags := Tags options in
  if negb (String.eqb (PushAs options) "")
  then append tags (PushAs options)
  else ret tags.

Definition Build (b : Backend) (ctx : Ctx) (config : BuildConfig)
  : M (string * option error) :=
  let options := Options config in
  let* tags := effectiveTags options in
  let* names := elements tags in
  let* r := call_pure
              (CallNewTagger (StdoutFormatter (ProgressWriter_ config)) names)
              (NewTagger (imageComponent b)
                         (StdoutFormatter (ProgressWriter_ config)) names) in
  match r with
  | inr err => ret ("", Some err)
  | inl tagger =>
    let* r := call (CallBuild ctx config)
                   (BuildManager_Build (manager b) ctx config) in
    match r with
    | inr err => ret ("", Some err)
    | inl build =>
      let imageID := ImageID build in
      let* (imageID, err) :=
        if Squash options
        then squashBuild build (imageComponent b)
        else ret (imageID, None) in
      match err with
      | Some _ => ret ("", err)
      | None =>
        let stdout := StdoutFormatter (ProgressWriter_ config) in
        let text := "Successfully built " +:+ TruncateID imageID +:+ LF in
        let* _ := call (CallFprintf stdout text) (Writer_Write stdout text) in
        let* err := call (CallTagImages tagger (image.ofString imageID))
                         (TagImages tagger (image.ofString imageID)) in
        if negb (String.eqb (PushAs options) "")
        then
          let* err := pushImage b ctx (PushAs options)
                                (AuthConfigs options) stdout in
          ret (imageID, err)
        else ret (imageID, err)
      end
    end
  end.

(** *** Vocabulary for statements about runs *)

(** The state [s] after the calls [evs], the collaborators left in [w]. *)
Definition after (evs : list Event) (w : W) (s : State) : State :=
  {| heap := heap s; world := w; trace := trace s ++ evs |}.

(** The state once the effective tag slice is computed. *)
Definition tagged_heap (config : BuildConfig) (s : State) : State :=
  (effectiveTags (Options config) s).1.

(** The strings [NewTagger] is handed: the elements of that slice. *)
Definition handed (config : BuildConfig) (s : State) : list string :=
  slice.contents (heap (tagged_heap config s))
                 (effectiveTags (Options config) s).2.

(** The effective tag set in the words of the specification: the
    configured tags, then the push-as reference if it is not empty. *)
Definition tag_set (h : slice.heap) (options : ImageBuildOptions)
  : list string :=
  slice.contents h (Tags options) ++
  (if String.eqb (PushAs options) "" then [] else [PushAs options]).

(** The base image identifier [squashBuild] computes: empty when the
    build result has no base image. *)
Definition baseID (build : Result) : string :=
  match FromImage build with
  | Some img => Image_ImageID img
  | None => ""
  end.

(** The text of the completion line for an image identifier. *)
Definition built_line (imageID : string) : string :=
  "Successfully built " +:+ TruncateID imageID +:+ LF.

(** The calls of a run of [Build] that gets as far as tagging: the
    tagger is built, the engine runs, the image is squashed if the
    options say so, the completion line is written, the tags applied. *)
Definition calls_until_tagged (ctx : Ctx) (config : BuildConfig)
    (names : list string) (tagger : Tagger) (build : Result)
    (imageID : string) : list Event :=
  let stdout := StdoutFormatter (ProgressWriter_ config) in
  [CallNewTagger stdout names; CallBuild ctx config] ++
  (if Squash (Options config)
   then [CallSquashImage (ImageID build) (baseID build)] else []) ++
  [CallFprintf stdout (built_line imageID);
   CallTagImages tagger (image.ofString imageID)].

(** The construction of the tagger. *)
Definition is_NewTagger_call (ev : Event) : bool :=
  match ev with
  | CallNewTagger _ _ => true
  | _ => false
  end.

(** Calls that only the push helper makes. *)
Definition is_push_call (ev : Event) : bool :=
  match ev with
  | CallParseNormalizedNamed _ | CallResolveRepository _
  | CallPushImage _ _ _ _ _ _ => true
  | _ => false
  end.

Definition is_squash_call (ev : Event) : bool :=
  match ev with
  | CallSquashImage _ _ => true
  | _ => false
  end.

Definition is_tag_call (ev : Event) : bool :=
  match ev with
  | CallTagImages _ _ => true
  | _ => false
  end.

(** The place of a call in the pipeline of [Build]. *)
Definition stage (ev : Event) : nat :=
  match ev with
  | CallNewTagger _ _ => 0
  | CallBuild _ _ => 1
  | CallSquashImage _ _ => 2
  | CallFprintf _ _ => 3
  | CallTagImages _ _ => 4
  | CallParseNormalizedNamed _ => 5
  | CallResolveRepository _ => 6
  | CallPushImage _ _ _ _ _ _ => 7
  end.

(** *** The paths through the code

    A run of [pushImage] ends at one of its three [return]s, a run of
    [Build] at one of its five.  A path names the [return] reached and
    what the collaborators answered on the way; the functions below read
    the path off the collaborators' answers, without heap or trace. *)

Inductive PushPath : Type :=
| ParseFailed (err : error)
| ResolveFailed (ref : Named) (w : W) (err : error)
| Pushed (ref : Named) (repoInfo : RepositoryInfo) (w : W)
         (perr : option error).

Inductive BuildPath : Type :=
| TaggerFailed (err : error)
| EngineFailed (tagger : Tagger) (w : W) (err : error)
| SquashFailed (tagger : Tagger) (build : Result) (w : W) (cause : error)
| Tagged (tagger : Tagger) (build : Result) (imageID : string) (w : W)
         (terr : option error) (push : option PushPath).

Definition push_path (b : Backend) (ctx : Ctx) (pushAs : string)
    (authConfigs : gmap string AuthConfig) (output : Writer) (w : W)
  : PushPath :=
  match ParseNormalizedNamed pushAs with
  | inr err => ParseFailed err
  | inl ref =>
      let r := ResolveRepository (registryService b) ref w in
      match r.2 with
      | inr err => ResolveFailed ref r.1 err
      | inl repoInfo =>
          let p := PushImage (ImageComponent := imageComponent b)
                     ctx (Named_String ref) "" ∅
                     (ResolveAuthConfig authConfigs (Index repoInfo))
                     (NewProgressOutput output) r.1 in
          Pushed ref repoInfo p.1 p.2
      end
  end.

Definition push_calls (ctx : Ctx) (pushAs : string)
    (authConfigs : gmap string AuthConfig) (output : Writer) (p : PushPath)
  : list Event :=
  match p with
  | ParseFailed _ => [CallParseNormalizedNamed pushAs]
  | ResolveFailed ref _ _ =>
      [CallParseNormalizedNamed pushAs; CallResolveRepository ref]
  | Pushed ref repoInfo _ _ =>
      [CallParseNormalizedNamed pushAs; CallResolveRepository ref;
       CallPushImage ctx (Named_String ref) "" ∅
                     (ResolveAuthConfig authConfigs (Index repoInfo))
                     (NewProgressOutput output)]
  end.

Definition push_world (w0 : W) (p : PushPath) : W :=
  match p with
  | ParseFailed _ => w0
  | ResolveFailed _ w _ | Pushed _ _ w _ => w
  end.

Definition push_error (p : PushPath) : option error :=
  match p with
  | ParseFailed err | ResolveFailed _ _ err => Some err
  | Pushed _ _ _ perr => perr
  end.

Definition build_path (b : Backend) (ctx : Ctx) (config : BuildConfig)
    (names : list string) (w0 : W) : BuildPath :=
  let options := Options config in
  let stdout := StdoutFormatter (ProgressWriter_ config) in
  match NewTagger (imageComponent b) stdout names with
  | inr err => TaggerFailed err
  | inl tagger =>
      let r := BuildManager_Build (manager b) ctx config w0 in
      match r.2 with
      | inr err => EngineFailed tagger r.1 err
      | inl build =>
          let q := if Squash options
                   then SquashImage (ImageComponent := imageComponent b)
                          (ImageID build) (baseID build) r.1
                   else (r.1, (ImageID build, None)) in
          match q.2.2 with
          | Some cause => SquashFailed tagger build q.1 cause
          | None =>
              let imageID := q.2.1 in
              let t := TagImages tagger (image.ofString imageID)
                         (Writer_Write stdout (built_line imageID) q.1).1 in
              Tagged tagger build imageID t.1 t.2
                (if negb (String.eqb (PushAs options) "")
                 then Some (push_path b ctx (PushAs options)
                              (AuthConfigs options) stdout t.1)
                 else None)
          end
      end
  end.

Definition path_calls (ctx : Ctx) (config : BuildConfig)
    (names : list string) (p : BuildPath) : list Event :=
  let options := Options config in
  let stdout := StdoutFormatter (ProgressWriter_ config) in
  match p with
  | TaggerFailed _ => [CallNewTagger stdout names]
  | EngineFailed _ _ _ => [CallNewTagger stdout names; CallBuild ctx config]
  | SquashFailed _ build _ _ =>
      [CallNewTagger stdout names; CallBuild ctx config;
       CallSquashImage (ImageID build) (baseID build)]
  | Tagged tagger build imageID _ _ push =>
      calls_until_tagged ctx config names tagger build imageID ++
      match push with
      | Some pp => push_calls ctx (PushAs options) (AuthConfigs options)
                              stdout pp
      | None => []
      end
  end.

Definition path_world (w0 : W) (p : BuildPath) : W :=
  match p with
  | TaggerFailed _ => w0
  | EngineFailed _ w _ | SquashFailed _ _ w _ => w
  | Tagged _ _ _ w _ push =>
      match push with
      | Some pp => push_world w pp
      | None => w
      end
  end.

Definition path_result (p : BuildPath) : string * option error :=
  match p with
  | TaggerFailed err | EngineFailed _ _ err => ("", Some err)
  | SquashFailed _ _ _ cause =>
      ("", Some (errors.withMessage cause "error squashing image"))
  | Tagged _ _ imageID _ terr push =>
      match push with
      | Some pp => (imageID, push_error pp)
      | None => (imageID, terr)
      end
  end.

End build.

(** ** The parts of the repository outside the embedded file *)

Section outside.

Context {W Ctx Writer Named IndexInfo AuthConfig : Type}.

(** The tagger of [tag.go]: the image component, the output stream and
    the parsed references. *)
Record SpecTagger : Type := {
  tagger_imageComponent : ImageComponent (W := W) (Ctx := Ctx)
                            (Writer := Writer) (Named := Named)
                            (AuthConfig := AuthConfig);
  tagger_stdout : Writer;
  repoAndTags : list Named
}.

Variable parse : string → Named + error.

(** Parsing the references in order, stopping at the first that fails. *)
Fixpoint parse_all (names : list string) : list Named + error :=
  match names with
  | [] => inl []
  | name :: rest =>
      match parse name with
      | inr err => inr err
      | inl ref =>
          match parse_all rest with
          | inr err => inr err
          | inl refs => inl (ref :: refs)
          end
      end
  end.

(** Modelled from the spec: [NewTagger] of [tag.go], which is not among
    the sources.  "Constructed with the image component, a progress-output
    sink, and an ordered set of reference strings; constructor fails if
    any reference string fails to parse as a valid normalized repository
    reference." *)
Definition NewTagger_spec (ic : ImageComponent) (stdout : Writer)
    (names : list string) : SpecTagger + error :=
  match parse_all names with
  | inr err => inr err
  | inl refs =>
      inl {| tagger_imageComponent := ic;
             tagger_stdout := stdout;
             repoAndTags := refs |}
  end.

Variable registry_host : IndexInfo → string.
Variable zero : AuthConfig.

(** Modelled from the spec: [registry.ResolveAuthConfig], which is not
    among the sources.  "A pure function resolving an auth config from a
    per-registry-index map plus a repo's index descriptor (never fails;
    returns a zero-value credential on miss)", the map being "keyed by
    registry host". *)
Definition ResolveAuthConfig_spec (authConfigs : gmap string AuthConfig)
    (index : IndexInfo) : AuthConfig :=
  default zero (authConfigs !! registry_host index).

End outside.

(** ** A test double

    The collaborators replaced by scripted ones: the script says what the
    build engine, the squash, the tagging, the repository resolution and
    the push answer.  References are strings; a reference is invalid when
    it is empty or has a space, and a valid one is normalized by prefixing
    the default registry and namespace. *)

Module double.

Record Script : Type := {
  engine : Result + error;
  squash : string * option error;
  tagging : option error;
  resolve : option error;
  push : option error
}.

Definition has_space (s : string) : bool :=
  existsb (Ascii.eqb " "%char) (list_ascii_of_string s).

Definition parse (s : string) : string + error :=
  if String.eqb s "" || has_space s
  then inr (errors.New "invalid reference format")
  else inl ("docker.io/library/" +:+ s).

#[global] Instance ic : ImageComponent (W := Script) (Ctx := unit)
    (Writer := string) (Named := string) (AuthConfig := string) := {|
  SquashImage := λ _ _ w, (w, squash w);
  TagImageWithReference := λ _ _ w, (w, tagging w);
  PushImage := λ _ _ _ _ _ _ w, (w, push w)
|}.

Definition backend : Backend (IndexInfo := string) := {|
  manager := {| BuildManager_Build := λ _ _ w, (w, engine w) |};
  imageComponent := ic;
  registryService := {|
    ResolveRepository := λ ref w,
      (w, match resolve w with
          | Some err => inr err
          | None => inl {| Index := "docker.io" |}
          end) |}
|}.

Definition Tagger : Type :=
  SpecTagger (W := Script) (Ctx := unit) (Writer := string)
             (Named := string) (AuthConfig := string).

#[global] Instance imports : Imports (IndexInfo := string) (Tagger := Tagger) := {|
  growslice := λ oldcap _, 2 * oldcap;
  NewTagger := NewTagger_spec parse;
  TagImages := λ _ _ w, (w, tagging w);
  ParseNormalizedNamed := parse;
  Named_String := λ ref, ref;
  ResolveAuthConfig := ResolveAuthConfig_spec (λ host, host) "";
  TruncateID := λ id, String.substring 0 12 id;
  Writer_Write := λ _ _ w, (w, tt)
|}.

(** The tagger that [NewTagger_spec] builds from parsed references. *)
Definition tagger_of (refs : list string) : Tagger := {|
  tagger_imageComponent := ic;
  tagger_stdout := "stdout";
  repoAndTags := refs
|}.

(** Scripts.  In [happy] every collaborator succeeds: the engine builds
    "abc123" on the base image "base1", a squash would give "sq456". *)
Definition built : Result :=
  {| ImageID := "abc123"; FromImage := Some {| Image_ImageID := "base1" |} |}.

Definition happy : Script := {|
  engine := inl built;
  squash := ("sq456", None);
  tagging := None;
  resolve := None;
  push := None
|}.

Definition E : error := errors.New "tag failed".
Definition P : error := errors.New "push failed".
Definition B : error := errors.New "build failed".
Definition C : error := errors.New "squash failed".

Definition tag_fails : Script := {|
  engine := inl built; squash := ("sq456", None);
  tagging := Some E; resolve := None; push := None |}.

Definition push_fails : Script := {|
  engine := inl built; squash := ("sq456", None);
  tagging := None; resolve := None; push := Some P |}.

Definition engine_fails : Script := {|
  engine := inr B; squash := ("sq456", None);
  tagging := None; resolve := None; push := None |}.

Definition squash_fails : Script := {|
  engine := inl built; squash := ("", Some C);
  tagging := None; resolve := None; push := None |}.

(** A caller's heap: the backing array of the tag list at location 1. *)
Definition start (tags : list string) (script : Script)
  : State (W := Script) (Ctx := unit) (Writer := string) (Named := string)
          (AuthConfig := string) (Tagger := Tagger) := {|
  heap := {[ 1%positive := tags ]};
  world := script;
  trace := []
|}.

Definition config (tags : list string) (pushAs : string) (sq : bool)
  : BuildConfig (Writer := string) (AuthConfig := string) := {|
  ProgressWriter_ := {| StdoutFormatter := "stdout" |};
  Options := {|
    Tags := slice.Slice 1%positive 0 (length tags) (length tags);
    PushAs := pushAs;
    Squash := sq;
    AuthConfigs := ∅
  |}
|}.

(** A caller whose backing array is longer than its tag list: the
    slice shows ["a:latest"], the array has one more cell. *)
Definition roomy_tags : slice.t := slice.Slice 1%positive 0 1 2.

Definition roomy_config : BuildConfig (Writer := string)
                                      (AuthConfig := string) := {|
  ProgressWriter_ := {| StdoutFormatter := "stdout" |};
  Options := {| Tags := roomy_tags; PushAs := "b:1"; Squash := false;
                AuthConfigs := ∅ |}
|}.

Definition roomy_start
  : State (W := Script) (Ctx := unit) (Writer := string) (Named := string)
          (AuthConfig := string) (Tagger := Tagger) := {|
  heap := {[ 1%positive := ["a:latest"; "spare"] ]};
  world := happy;
  trace := []
|}.

(** The registry service does not know the repository. *)
Definition R : error := errors.New "unknown registry".

Definition resolve_fails : Script := {|
  engine := inl built; squash := ("sq456", None);
  tagging := None; resolve := Some R; push := None |}.

(** Another caller with the same tag list: a longer backing array, a
    second array, and calls already recorded. *)
Definition roomy_other
  : State (W := Script) (Ctx := unit) (Writer := string) (Named := string)
          (AuthConfig := string) (Tagger := Tagger) := {|
  heap := {[ 1%positive := ["a:latest"; "other"; "more"];
             2%positive := ["unrelated"] ]};
  world := happy;
  trace := [CallFprintf "stderr" "earlier"]
|}.

Definition run (tags : list string) (pushAs : string) (sq : bool)
    (script : Script) :=
  Build backend tt (config tags pushAs sq) (start tags script).

End double.

(** * Properties *)

(** ** Slices: what [append] does to the heap *)

Section slice_facts.

Variable grow : nat → nat → nat.
Implicit Types (h : slice.heap) (s : slice.t) (x : string).

Lemma newcap_ge oldcap needed : needed ≤ slice.newcap grow oldcap needed.
Proof. unfold slice.newcap. lia. Qed.

Lemma contents_length h s : length (slice.contents h s) ≤ slice.len s.
Proof.
  unfold slice.contents. destruct (h !! slice.ptr s); simpl; [|lia].
  rewrite length_take. lia.
Qed.

(** A well-formed slice shows exactly [len] elements. *)
Lemma contents_length_wf h s :
  slice.wf h s → length (slice.contents h s) = slice.len s.
Proof.
  intros [Hle [Hcap | (a & Ha & Hin)]]; unfold slice.contents.
  - assert (slice.len s = 0) as -> by lia.
    by destruct (h !! slice.ptr s).
  - rewrite Ha, length_take, length_drop. lia.
Qed.

(** A full well-formed slice, or one without array, is copied. *)
Lemma grow_append_contents h s x :
  slice.wf h s →
  let '(h', s') := slice.grow_append grow h s x in
  slice.contents h' s' = slice.contents h s ++ [x].
Proof.
  intros Hwf. unfold slice.grow_append.
  unfold slice.contents at 1. simpl.
  rewrite lookup_insert_eq, drop_0.
  rewrite <- (contents_length_wf h s Hwf).
  replace (S (length (slice.contents h s)))
    with (length (slice.contents h s) + 1) by lia.
  by rewrite take_app_add'.
Qed.

Lemma fresh_unallocated h : h !! fresh (dom h) = None.
Proof. apply not_elem_of_dom, is_fresh. Qed.

(** The slice [append] returns holds the old elements and then [x]. *)
Lemma append_contents h s x :
  slice.wf h s →
  let '(h', s') := slice.append grow h s x in
  slice.contents h' s' = slice.contents h s ++ [x].
Proof.
  intros Hwf. unfold slice.append.
  destruct (h !! slice.ptr s) as [a|] eqn:Ha;
    [|by apply grow_append_contents].
  case_decide as Hlt; [|by apply grow_append_contents].
  destruct Hwf as [_ [Hcap | (a' & Ha' & Hin)]]; [lia|].
  assert (a' = a) as -> by congruence.
  unfold slice.contents. simpl. rewrite lookup_insert_eq, Ha.
  rewrite drop_insert_ge by lia.
  replace (slice.off s + slice.len s - slice.off s) with (slice.len s) by lia.
  rewrite (take_S_r _ _ x).
  - by rewrite take_insert_ge.
  - apply list_lookup_insert_eq. rewrite length_drop. lia.
Qed.

(** The caller's slice shows the same elements after [append]. *)
Lemma append_contents_self h s x :
  slice.wf h s →
  slice.contents (slice.append grow h s x).1 s = slice.contents h s.
Proof.
  intros Hwf. unfold slice.append, slice.grow_append.
  destruct (h !! slice.ptr s) as [a|] eqn:Ha.
  - case_decide as Hlt; simpl; unfold slice.contents.
    + rewrite lookup_insert_eq, Ha.
      rewrite drop_insert_ge by lia. by rewrite take_insert_ge by lia.
    + rewrite lookup_insert_ne; [done|].
      intros Heq. pose proof (fresh_unallocated h). congruence.
  - destruct Hwf as [Hle [Hcap | (a' & Ha' & _)]]; [|congruence].
    assert (slice.len s = 0) as Hlen by lia.
    simpl. unfold slice.contents. rewrite Ha, Hlen.
    by case_match.
Qed.

(** [append] writes to the backing array of its argument or to a fresh
    array, and to no other. *)
Lemma append_other_arrays h s x (l : slice.loc) (a : list string) :
  l ≠ slice.ptr s → h !! l = Some a →
  (slice.append grow h s x).1 !! l = Some a.
Proof.
  intros Hne Hl. unfold slice.append, slice.grow_append.
  assert (fresh (dom h) ≠ l) as Hfresh.
  { intros <-. pose proof (fresh_unallocated h). congruence. }
  destruct (h !! slice.ptr s); [case_decide|]; simpl;
    by rewrite lookup_insert_ne.
Qed.

(** Slices stay well-formed: arrays keep their length. *)
Lemma append_wf h s x (t : slice.t) :
  slice.wf h t → slice.wf (slice.append grow h s x).1 t.
Proof.
  intros [Hle [Hcap | (a & Ha & Hin)]]; split; auto. right.
  unfold slice.append, slice.grow_append.
  assert (fresh (dom h) ≠ slice.ptr t) as Hfresh.
  { intros Heq. pose proof (fresh_unallocated h). congruence. }
  destruct (h !! slice.ptr s) as [b|] eqn:Hb; [case_decide|]; simpl.
  - destruct (decide (slice.ptr s = slice.ptr t)) as [Heq|Hne].
    + rewrite Heq, lookup_insert_eq. eexists; split; [done|].
      rewrite length_insert. congruence.
    + rewrite lookup_insert_ne by done. eauto.
  - rewrite lookup_insert_ne by done. eauto.
  - rewrite lookup_insert_ne by done. eauto.
Qed.

End slice_facts.

(** ** Runs of the embedded functions *)

Section build_facts.

Context {W Ctx Writer Named IndexInfo AuthConfig Tagger : Type}.
Context `{!Imports (W := W) (Ctx := Ctx) (Writer := Writer) (Named := Named)
                   (IndexInfo := IndexInfo) (AuthConfig := AuthConfig)
                   (Tagger := Tagger)}.

#[local] Abbreviation backend := (Backend (W := W) (Ctx := Ctx)
  (Writer := Writer) (Named := Named) (IndexInfo := IndexInfo)
  (AuthConfig := AuthConfig)).
#[local] Abbreviation build_config :=
  (BuildConfig (Writer := Writer) (AuthConfig := AuthConfig)).
#[local] Abbreviation state := (State (W := W) (Ctx := Ctx)
  (Writer := Writer) (Named := Named) (AuthConfig := AuthConfig)
  (Tagger := Tagger)).
#[local] Abbreviation event := (Event (Ctx := Ctx) (Writer := Writer)
  (Named := Named) (AuthConfig := AuthConfig) (Tagger := Tagger)).
#[local] Abbreviation image_component := (ImageComponent (W := W)
  (Ctx := Ctx) (Writer := Writer) (Named := Named)
  (AuthConfig := AuthConfig)).

Implicit Types (b : backend) (ctx : Ctx) (config : build_config)
               (s : state) (w : W) (evs : list event).

Lemma after_after evs1 evs2 w1 w2 s :
  after evs2 w2 (after evs1 w1 s) = after (evs1 ++ evs2) w2 s.
Proof. unfold after. simpl. by rewrite app_assoc. Qed.

Lemma after_nil s : after [] (world s) s = s.
Proof. destruct s. unfold after. simpl. by rewrite app_nil_r. Qed.

(** A recorded call extends the trace by one event and leaves the heap. *)
Lemma call_run {A} (ev : event) (f : Ext A) s :
  call ev f s = (after [ev] (f (world s)).1 s, (f (world s)).2).
Proof. unfold call, bind, record, after. simpl. by destruct (f (world s)). Qed.

Lemma call_pure_run {A} (ev : event) (a : A) s :
  call_pure ev a s = (after [ev] (world s) s, a).
Proof. done. Qed.

(** Computing the effective tags touches the heap only. *)
Lemma tagged_heap_world config s : world (tagged_heap config s) = world s.
Proof.
  unfold tagged_heap, effectiveTags, append, ret.
  destruct (negb _); [|done]. by destruct (slice.append _ _ _ _).
Qed.

Lemma tagged_heap_trace config s : trace (tagged_heap config s) = trace s.
Proof.
  unfold tagged_heap, effectiveTags, append, ret.
  destruct (negb _); [|done]. by destruct (slice.append _ _ _ _).
Qed.

(** [squashBuild] makes one call, with the base identifier [baseID]. *)
Lemma squashBuild_run (build : Result) (ic : image_component) s :
  squashBuild build ic s =
  let r := SquashImage (ImageID build) (baseID build) (world s) in
  (after [CallSquashImage (ImageID build) (baseID build)] r.1 s,
   match r.2.2 with
   | Some cause =>
       ("", Some (errors.withMessage cause "error squashing image"))
   | None => (r.2.1, None)
   end).
Proof.
  unfold squashBuild, bind. fold (baseID build). rewrite call_run.
  destruct (SquashImage _ _ _) as [w [imageID [cause|]]]; done.
Qed.

(** [pushImage], call by call. *)
Lemma pushImage_run b ctx (pushAs : string)
    (authConfigs : gmap string AuthConfig) (output : Writer) s :
  pushImage b ctx pushAs authConfigs output s =
  match ParseNormalizedNamed pushAs with
  | inr err => (after [CallParseNormalizedNamed pushAs] (world s) s, Some err)
  | inl ref =>
      let r := ResolveRepository (registryService b) ref (world s) in
      match r.2 with
      | inr err =>
          (after [CallParseNormalizedNamed pushAs; CallResolveRepository ref]
                 r.1 s, Some err)
      | inl repoInfo =>
          let authConfig := ResolveAuthConfig authConfigs (Index repoInfo) in
          let p := PushImage (ImageComponent := imageComponent b)
                     ctx (Named_String ref) "" ∅ authConfig
                     (NewProgressOutput output) r.1 in
          (after [CallParseNormalizedNamed pushAs; CallResolveRepository ref;
                  CallPushImage ctx (Named_String ref) "" ∅ authConfig
                                (NewProgressOutput output)] p.1 s, p.2)
      end
  end.
Proof.
  unfold pushImage, bind. rewrite call_pure_run.
  destruct (ParseNormalizedNamed pushAs) as [ref|err]; [|done].
  rewrite call_run. simpl.
  destruct (ResolveRepository _ ref (world s)) as [w [repoInfo|err]]; simpl.
  - rewrite call_run. simpl. by rewrite !after_after.
  - unfold ret. by rewrite after_after.
Qed.

(** The push helper leaves the heap and makes push calls only, the
    first of them parsing the reference; what it hands to the image
    component's push is fixed by the reference. *)
Lemma pushImage_calls b ctx (pushAs : string)
    (authConfigs : gmap string AuthConfig) (output : Writer) s :
  ∃ evs w,
    (pushImage b ctx pushAs authConfigs output s).1
    = after (CallParseNormalizedNamed pushAs :: evs) w s ∧
    forallb is_push_call evs = true ∧
    ∀ c img tag hdrs auth out,
      CallPushImage c img tag hdrs auth out ∈ evs →
      ∃ ref, ParseNormalizedNamed pushAs = inl ref ∧
             c = ctx ∧ img = Named_String ref ∧ tag = "" ∧ hdrs = ∅ ∧
             out = NewProgressOutput output.
Proof.
  rewrite pushImage_run.
  destruct (ParseNormalizedNamed pushAs) as [ref|err].
  - simpl.
    destruct (ResolveRepository _ ref (world s)) as [w [repoInfo|err]]; simpl;
      eexists _, _; (split; [reflexivity|]); (split; [done|]);
      intros c img tag hdrs auth out;
      rewrite ?elem_of_cons, elem_of_nil; intros Hin.
    + destruct Hin as [Heq|[Heq|[]]]; [done|].
      injection Heq as -> -> -> -> -> ->. by exists ref.
    + by destruct Hin as [Heq|[]].
  - eexists _, _. split; [reflexivity|]. split; [done|].
    intros c img tag hdrs auth out. by rewrite elem_of_nil.
Qed.

Lemma push_calls_not_NewTagger evs :
  forallb is_push_call evs = true →
  forallb (λ ev, negb (is_NewTagger_call ev)) evs = true.
Proof.
  induction evs as [|ev evs IH]; [done|]. simpl.
  intros [Hev Hevs]%andb_prop. rewrite IH by done.
  by destruct ev.
Qed.

(** Opening a run of [Build]: name the state and the slice that the
    first statements produce, and take the first recorded call. *)
Ltac open_Build config s :=
  unfold Build, bind, elements;
  pose proof (tagged_heap_world config s) as Hworld;
  unfold handed, tagged_heap in *;
  destruct (effectiveTags (Options config) s) as [s0 tags];
  cbn [fst snd] in *; rewrite call_pure_run, Hworld.

(** The tagger cannot be built: nothing else is called. *)
Lemma Build_tagger_fails b ctx config s (err : error) :
  NewTagger (imageComponent b) (StdoutFormatter (ProgressWriter_ config))
            (handed config s) = inr err →
  Build b ctx config s =
  (after [CallNewTagger (StdoutFormatter (ProgressWriter_ config))
                        (handed config s)]
         (world s) (tagged_heap config s),
   ("", Some err)).
Proof.
  intros Htagger. open_Build config s. by rewrite Htagger.
Qed.

(** The engine fails: the run stops after the engine call. *)
Lemma Build_engine_fails b ctx config s (tagger : Tagger) w1 (err : error) :
  NewTagger (imageComponent b) (StdoutFormatter (ProgressWriter_ config))
            (handed config s) = inl tagger →
  BuildManager_Build (manager b) ctx config (world s) = (w1, inr err) →
  Build b ctx config s =
  (after [CallNewTagger (StdoutFormatter (ProgressWriter_ config))
                        (handed config s);
          CallBuild ctx config]
         w1 (tagged_heap config s),
   ("", Some err)).
Proof.
  intros Htagger Hengine. open_Build config s.
  rewrite Htagger, call_run. cbn [world after]. rewrite Hengine.
  unfold ret. cbn [fst snd]. by rewrite after_after.
Qed.

(** The squash fails: the run stops after the squash call. *)
Lemma Build_squash_fails b ctx config s (tagger : Tagger) w1 w2
    (build : Result) (imageID : string) (cause : error) :
  Squash (Options config) = true →
  NewTagger (imageComponent b) (StdoutFormatter (ProgressWriter_ config))
            (handed config s) = inl tagger →
  BuildManager_Build (manager b) ctx config (world s) = (w1, inl build) →
  SquashImage (ImageComponent := imageComponent b)
              (ImageID build) (baseID build) w1 = (w2, (imageID, Some cause)) →
  Build b ctx config s =
  (after [CallNewTagger (StdoutFormatter (ProgressWriter_ config))
                        (handed config s);
          CallBuild ctx config;
          CallSquashImage (ImageID build) (baseID build)]
         w2 (tagged_heap config s),
   ("", Some (errors.withMessage cause "error squashing image"))).
Proof.
  intros Hopt Htagger Hengine Hsquash. open_Build config s.
  rewrite Htagger, call_run. cbn [world after]. rewrite Hengine.
  cbn [fst snd]. rewrite Hopt, squashBuild_run. cbn [world after].
  rewrite Hsquash. unfold ret. cbn [fst snd].
  by rewrite !after_after.
Qed.

(** The run gets as far as tagging. [w2] and [imageID] are the
    collaborators' state and the working identifier after the optional
    squash, [w4] and [terr] what tagging leaves and answers. *)
Lemma Build_tagged b ctx config s (tagger : Tagger) w1 w2 w4
    (build : Result) (imageID : string) (terr : option error) :
  let stdout := StdoutFormatter (ProgressWriter_ config) in
  let tagged :=
    after (calls_until_tagged ctx config (handed config s) tagger build imageID)
          w4 (tagged_heap config s) in
  NewTagger (imageComponent b) stdout (handed config s) = inl tagger →
  BuildManager_Build (manager b) ctx config (world s) = (w1, inl build) →
  (if Squash (Options config)
   then SquashImage (ImageComponent := imageComponent b)
                    (ImageID build) (baseID build) w1 = (w2, (imageID, None))
   else w2 = w1 ∧ imageID = ImageID build) →
  TagImages tagger (image.ofString imageID)
            (Writer_Write stdout (built_line imageID) w2).1 = (w4, terr) →
  Build b ctx config s =
  if negb (String.eqb (PushAs (Options config)) "")
  then
    let r := pushImage b ctx (PushAs (Options config))
                       (AuthConfigs (Options config)) stdout tagged in
    (r.1, (imageID, r.2))
  else (tagged, (imageID, terr)).
Proof.
  intros stdout tagged Htagger Hengine Hsquash Htag. subst stdout tagged.
  unfold calls_until_tagged. open_Build config s.
  rewrite Htagger, call_run. cbn [world after]. rewrite Hengine.
  cbn [fst snd].
  assert ((if Squash (Options config)
           then squashBuild build (imageComponent b)
           else ret (ImageID build, None))
            (after [CallBuild ctx config] w1
               (after [CallNewTagger (StdoutFormatter (ProgressWriter_ config))
                         (slice.contents (heap s0) tags)] (world s) s0))
          = (after ([CallNewTagger (StdoutFormatter (ProgressWriter_ config))
                       (slice.contents (heap s0) tags);
                     CallBuild ctx config] ++
                    (if Squash (Options config)
                     then [CallSquashImage (ImageID build) (baseID build)]
                     else [])) w2 s0,
             (imageID, None))) as ->.
  { destruct (Squash (Options config)).
    - rewrite squashBuild_run. cbn [world after]. rewrite Hsquash.
      cbn [fst snd]. by rewrite !after_after.
    - destruct Hsquash as [-> ->]. unfold ret.
      by rewrite after_after, app_nil_r. }
  rewrite call_run. cbn [world after fst snd]. fold (built_line imageID).
  rewrite call_run. cbn [world after fst snd]. rewrite Htag.
  cbn [fst snd]. rewrite !after_after, <- !app_assoc.
  destruct (negb _); [|done].
  unfold ret. by destruct (pushImage _ _ _ _ _ _).
Qed.

(** Every run of [Build] starts from the state in which the effective
    tags are computed, builds the tagger once with the strings [handed],
    and whatever follows is recorded and leaves the heap alone. *)
Lemma Build_calls b ctx config s :
  ∃ evs w,
    (Build b ctx config s).1
    = after (CallNewTagger (StdoutFormatter (ProgressWriter_ config))
                           (handed config s) :: evs)
            w (tagged_heap config s) ∧
    forallb (λ ev, negb (is_NewTagger_call ev)) evs = true.
Proof.
  destruct (NewTagger (imageComponent b)
              (StdoutFormatter (ProgressWriter_ config)) (handed config s))
    as [tagger|err] eqn:Htagger;
    [|erewrite Build_tagger_fails by done; by eexists _, _].
  destruct (BuildManager_Build (manager b) ctx config (world s))
    as [w1 [build|err]] eqn:Hengine;
    [|erewrite Build_engine_fails by done; by eexists _, _].
  assert (∀ w2 imageID,
    (if Squash (Options config)
     then SquashImage (ImageComponent := imageComponent b)
            (ImageID build) (baseID build) w1 = (w2, (imageID, None))
     else w2 = w1 ∧ imageID = ImageID build) →
    ∃ evs w,
      (Build b ctx config s).1
      = after (CallNewTagger (StdoutFormatter (ProgressWriter_ config))
                             (handed config s) :: evs)
              w (tagged_heap config s) ∧
      forallb (λ ev, negb (is_NewTagger_call ev)) evs = true) as Htagged.
  { intros w2 imageID Hsquash.
    destruct (TagImages tagger (image.ofString imageID)
                (Writer_Write (StdoutFormatter (ProgressWriter_ config))
                   (built_line imageID) w2).1) as [w4 terr] eqn:Htag.
    rewrite (Build_tagged b ctx config s tagger w1 w2 w4 build imageID terr)
      by done.
    unfold calls_until_tagged.
    destruct (negb _); cbn [fst].
    - edestruct pushImage_calls as (evs & w & -> & Hpush & _).
      rewrite after_after.
      destruct (Squash _); simpl; eexists _, _;
        (split; [reflexivity|]); simpl;
        by apply push_calls_not_NewTagger.
    - destruct (Squash _); simpl; by eexists _, _. }
  destruct (Squash (Options config)) eqn:Hopt; [|by eapply Htagged].
  destruct (SquashImage (ImageComponent := imageComponent b)
              (ImageID build) (baseID build) w1)
    as [w2 [imageID [cause|]]] eqn:Hsquash; [|by eapply Htagged].
  erewrite Build_squash_fails by done. by eexists _, _.
Qed.

(** *** Failures before the image exists *)

(** C8. When the tagger's constructor rejects the effective tag set
    with a construction error, [Build] returns the empty identifier and
    that error at once: the constructor is the only call made, so the
    build engine is not invoked and the collaborators are left as they
    were. *)
Theorem Build_tagger_error b ctx config s (err : error) :
  NewTagger (imageComponent b) (StdoutFormatter (ProgressWriter_ config))
            (handed config s) = inr err →
  (Build b ctx config s).2 = ("", Some err) ∧
  trace (Build b ctx config s).1
  = trace s ++ [CallNewTagger (StdoutFormatter (ProgressWriter_ config))
                              (handed config s)] ∧
  world (Build b ctx config s).1 = world s.
Proof.
  intros Htagger. rewrite (Build_tagger_fails b ctx config s err Htagger).
  cbn [fst snd after trace world]. by rewrite tagged_heap_trace.
Qed.

(** C5. When the tag references are all valid, so that the tagger is
    built, and the build engine returns the error [B], [Build] returns
    the empty identifier with [B]; the calls of the run are the tagger's
    construction and the engine, so no squash, no completion line, no
    tagging and no push happen. *)
Theorem Build_engine_error b ctx config s (tagger : Tagger) w1 (B : error) :
  NewTagger (imageComponent b) (StdoutFormatter (ProgressWriter_ config))
            (handed config s) = inl tagger →
  BuildManager_Build (manager b) ctx config (world s) = (w1, inr B) →
  (Build b ctx config s).2 = ("", Some B) ∧
  trace (Build b ctx config s).1
  = trace s ++ [CallNewTagger (StdoutFormatter (ProgressWriter_ config))
                              (handed config s);
                CallBuild ctx config] ∧
  world (Build b ctx config s).1 = w1.
Proof.
  intros Htagger Hengine.
  rewrite (Build_engine_fails b ctx config s tagger w1 B Htagger Hengine).
  cbn [fst snd after trace world]. by rewrite tagged_heap_trace.
Qed.

(** C4. With [Squash] set, when the image component's squash fails with
    cause [C], [Build] returns the empty identifier and [C] wrapped with
    the message "error squashing image"; the squash is the last call, so
    neither tagging nor push is invoked.  The base identifier handed to
    the squash is empty when the build result has no base image, and the
    base image's identifier otherwise. *)
Theorem Build_squash_error b ctx config s (tagger : Tagger) w1 w2
    (build : Result) (imageID : string) (C : error) :
  let base := match FromImage build with
              | Some img => Image_ImageID img
              | None => ""
              end in
  Squash (Options config) = true →
  NewTagger (imageComponent b) (StdoutFormatter (ProgressWriter_ config))
            (handed config s) = inl tagger →
  BuildManager_Build (manager b) ctx config (world s) = (w1, inl build) →
  SquashImage (ImageComponent := imageComponent b)
              (ImageID build) base w1 = (w2, (imageID, Some C)) →
  (Build b ctx config s).2
  = ("", Some (errors.withMessage C "error squashing image")) ∧
  (∀ s', world s' = w1 →
     squashBuild build (imageComponent b) s'
     = (after [CallSquashImage (ImageID build) base] w2 s',
        ("", errors.Wrap (Some C) "error squashing image"))) ∧
  trace (Build b ctx config s).1
  = trace s ++ [CallNewTagger (StdoutFormatter (ProgressWriter_ config))
                              (handed config s);
                CallBuild ctx config;
                CallSquashImage (ImageID build) base] ∧
  world (Build b ctx config s).1 = w2.
Proof.
  intros base Hopt Htagger Hengine Hsquash.
  rewrite (Build_squash_fails b ctx config s tagger w1 w2 build imageID C
             Hopt Htagger Hengine Hsquash).
  cbn [fst snd after trace world]. rewrite tagged_heap_trace.
  repeat split. intros s' Hw. rewrite squashBuild_run, Hw.
  change (baseID build) with base. cbn zeta. by rewrite Hsquash.
Qed.

(** *** Runs that reach tagging

    In the statements below [w1] is the collaborators' state after the
    engine, [w2] and [imageID] the state and the working identifier
    after the optional squash, [w4] and [terr] what the tagger leaves
    and answers. *)

(** C1. With a push-as reference, once the engine and the squash (if
    enabled) succeed, [Build] runs the push helper from the state that
    tagging leaves, whatever tagging answered, and returns the working
    identifier with the helper's outcome: the first call after tagging
    is the helper's parse of the reference, and the returned error is
    [nil] whenever the helper's is. *)
Theorem Build_push_replaces_tag_outcome b ctx config s (tagger : Tagger)
    w1 w2 w4 (build : Result) (imageID : string) (terr : option error) :
  let options := Options config in
  let stdout := StdoutFormatter (ProgressWriter_ config) in
  let tagged :=
    after (calls_until_tagged ctx config (handed config s) tagger build imageID)
          w4 (tagged_heap config s) in
  let pushed :=
    pushImage b ctx (PushAs options) (AuthConfigs options) stdout tagged in
  PushAs options ≠ "" →
  NewTagger (imageComponent b) stdout (handed config s) = inl tagger →
  BuildManager_Build (manager b) ctx config (world s) = (w1, inl build) →
  (if Squash options
   then SquashImage (ImageComponent := imageComponent b)
                    (ImageID build) (baseID build) w1 = (w2, (imageID, None))
   else w2 = w1 ∧ imageID = ImageID build) →
  TagImages tagger (image.ofString imageID)
            (Writer_Write stdout (built_line imageID) w2).1 = (w4, terr) →
  Build b ctx config s = (pushed.1, (imageID, pushed.2)) ∧
  (∃ evs w, pushed.1
            = after (CallParseNormalizedNamed (PushAs options) :: evs)
                    w tagged) ∧
  (pushed.2 = None → (Build b ctx config s).2 = (imageID, None)).
Proof.
  intros options stdout tagged pushed Hpush Htagger Hengine Hsquash Htag.
  rewrite (Build_tagged b ctx config s tagger w1 w2 w4 build imageID terr)
    by done.
  apply String.eqb_neq in Hpush. fold options. rewrite Hpush.
  cbn [negb]. split; [done|]. split.
  - destruct (pushImage_calls b ctx (PushAs options) (AuthConfigs options)
                stdout tagged) as (evs & w & Heq & _).
    by exists evs, w.
  - by intros <-.
Qed.

(** C2, amended. With a push-as reference, in a run that reaches the
    push step, the error [Build] returns is the push helper's outcome:
    the push error when push fails, and [nil] when push succeeds, also
    when tagging had failed. *)
Theorem Build_push_outcome_wins b ctx config s (tagger : Tagger)
    w1 w2 w4 (build : Result) (imageID : string) (terr : option error) :
  let options := Options config in
  let stdout := StdoutFormatter (ProgressWriter_ config) in
  let tagged :=
    after (calls_until_tagged ctx config (handed config s) tagger build imageID)
          w4 (tagged_heap config s) in
  let perr :=
    (pushImage b ctx (PushAs options) (AuthConfigs options) stdout tagged).2 in
  PushAs options ≠ "" →
  NewTagger (imageComponent b) stdout (handed config s) = inl tagger →
  BuildManager_Build (manager b) ctx config (world s) = (w1, inl build) →
  (if Squash options
   then SquashImage (ImageComponent := imageComponent b)
                    (ImageID build) (baseID build) w1 = (w2, (imageID, None))
   else w2 = w1 ∧ imageID = ImageID build) →
  TagImages tagger (image.ofString imageID)
            (Writer_Write stdout (built_line imageID) w2).1 = (w4, terr) →
  (∀ P, perr = Some P → (Build b ctx config s).2.2 = Some P) ∧
  (perr = None → (Build b ctx config s).2.2 = None).
Proof.
  intros options stdout tagged perr Hpush Htagger Hengine Hsquash Htag.
  rewrite (Build_tagged b ctx config s tagger w1 w2 w4 build imageID terr)
    by done.
  apply String.eqb_neq in Hpush. fold options. rewrite Hpush.
  cbn [negb snd]. fold stdout tagged perr. by split; [intros P|].
Qed.

(** C3. With [Squash] set, when the engine and the squash succeed, the
    squash's output identifier [sq] is the identifier [Build] returns,
    the one the completion line names and the one handed to tagging;
    the calls after tagging are the push helper's.  The engine's own
    identifier only appears as the squash's input. *)
Theorem Build_squashed_identifier b ctx config s (tagger : Tagger)
    w1 w2 w4 (build : Result) (sq : string) (terr : option error) :
  let stdout := StdoutFormatter (ProgressWriter_ config) in
  Squash (Options config) = true →
  NewTagger (imageComponent b) stdout (handed config s) = inl tagger →
  BuildManager_Build (manager b) ctx config (world s) = (w1, inl build) →
  SquashImage (ImageComponent := imageComponent b)
              (ImageID build) (baseID build) w1 = (w2, (sq, None)) →
  TagImages tagger (image.ofString sq)
            (Writer_Write stdout (built_line sq) w2).1 = (w4, terr) →
  (Build b ctx config s).2.1 = sq ∧
  (sq ≠ ImageID build → (Build b ctx config s).2.1 ≠ ImageID build) ∧
  ∃ evs w,
    (Build b ctx config s).1
    = after ([CallNewTagger stdout (handed config s);
              CallBuild ctx config;
              CallSquashImage (ImageID build) (baseID build);
              CallFprintf stdout
                ("Successfully built " +:+ TruncateID sq +:+ LF);
              CallTagImages tagger (image.ofString sq)] ++ evs)
            w (tagged_heap config s) ∧
    forallb is_push_call evs = true.
Proof.
  intros stdout Hopt Htagger Hengine Hsquash Htag.
  rewrite (Build_tagged b ctx config s tagger w1 w2 w4 build sq terr)
    by (by rewrite ?Hopt).
  unfold calls_until_tagged. rewrite Hopt. fold stdout.
  destruct (negb _); cbn [fst snd].
  - repeat split; [done|].
    edestruct pushImage_calls as (evs & w & -> & Hpush & _).
    rewrite after_after. by eexists (_ :: evs), w.
  - repeat split; [done|]. exists [], w4. by rewrite app_nil_r.
Qed.

(** C6, amended. In a run that reaches tagging, the identifier handed
    to the tagger is the final one, the squashed identifier when the
    options ask for a squash and the engine's identifier otherwise, and
    it is the identifier [Build] returns.  The push operation is handed
    no image identifier: its image argument is the normalized push-as
    reference, its tag argument is empty. *)
Theorem Build_tags_final_identifier b ctx config s (tagger : Tagger)
    w1 w2 w4 (build : Result) (imageID : string) (terr : option error) :
  let options := Options config in
  let stdout := StdoutFormatter (ProgressWriter_ config) in
  NewTagger (imageComponent b) stdout (handed config s) = inl tagger →
  BuildManager_Build (manager b) ctx config (world s) = (w1, inl build) →
  (if Squash options
   then SquashImage (ImageComponent := imageComponent b)
                    (ImageID build) (baseID build) w1 = (w2, (imageID, None))
   else w2 = w1 ∧ imageID = ImageID build) →
  TagImages tagger (image.ofString imageID)
            (Writer_Write stdout (built_line imageID) w2).1 = (w4, terr) →
  (Build b ctx config s).2.1 = imageID ∧
  ∃ evs w,
    (Build b ctx config s).1 = after evs w (tagged_heap config s) ∧
    CallTagImages tagger (image.ofString imageID) ∈ evs ∧
    (∀ t id, CallTagImages t id ∈ evs → id = image.ofString imageID) ∧
    (∀ c img tag hdrs auth out,
       CallPushImage c img tag hdrs auth out ∈ evs →
       ∃ ref, ParseNormalizedNamed (PushAs options) = inl ref ∧
              img = Named_String ref ∧ tag = "").
Proof.
  intros options stdout Htagger Hengine Hsquash Htag.
  rewrite (Build_tagged b ctx config s tagger w1 w2 w4 build imageID terr)
    by done.
  assert (∀ evs,
    forallb is_push_call evs = true →
    (∀ c img tag hdrs auth out,
       CallPushImage c img tag hdrs auth out ∈ evs →
       ∃ ref, ParseNormalizedNamed (PushAs options) = inl ref ∧
              img = Named_String ref ∧ tag = "") →
    let all := calls_until_tagged ctx config (handed config s) tagger
                 build imageID ++ evs in
    CallTagImages tagger (image.ofString imageID) ∈ all ∧
    (∀ t id, CallTagImages t id ∈ all → id = image.ofString imageID) ∧
    (∀ c img tag hdrs auth out,
       CallPushImage c img tag hdrs auth out ∈ all →
       ∃ ref, ParseNormalizedNamed (PushAs options) = inl ref ∧
              img = Named_String ref ∧ tag = "")) as Hcalls.
  { intros evs Hpush Himg all. subst all. unfold calls_until_tagged.
    rewrite forallb_forall in Hpush.
    split; [|split].
    - rewrite !elem_of_app, !elem_of_cons. tauto.
    - intros t id. rewrite !elem_of_app, !elem_of_cons, elem_of_nil.
      intros [[[Heq|[Heq|[]]]|[Hin|[Heq|[Heq|[]]]]]|Hin]; try done.
      + destruct (Squash _); [|by apply elem_of_nil in Hin].
        by apply list_elem_of_singleton in Hin.
      + by injection Heq as -> ->.
      + apply list_elem_of_In, Hpush in Hin. done.
    - intros c img tag hdrs auth out.
      rewrite !elem_of_app, !elem_of_cons, elem_of_nil.
      intros [[[Heq|[Heq|[]]]|[Hin|[Heq|[Heq|[]]]]]|Hin]; try done.
      + destruct (Squash _); [|by apply elem_of_nil in Hin].
        by apply list_elem_of_singleton in Hin.
      + by eapply Himg. }
  fold options stdout. destruct (negb _); cbn [fst snd].
  - split; [done|].
    edestruct pushImage_calls as (evs & w & -> & Hpush & Himg).
    rewrite after_after. eexists _, w. split; [reflexivity|].
    apply Hcalls; [done|].
    intros c img tag hdrs auth out [Heq|Hin]%elem_of_cons; [done|].
    destruct (Himg _ _ _ _ _ _ Hin) as (ref & ? & _ & ? & ? & _).
    by exists ref.
  - split; [done|]. eexists _, w4.
    split; [by rewrite <- (app_nil_r (calls_until_tagged _ _ _ _ _ _))|].
    apply Hcalls; [done|]. intros c img tag hdrs auth out.
    by rewrite elem_of_nil.
Qed.

(** *** The effective tags and the caller's slice *)

Lemma tagged_heap_heap config s :
  heap (tagged_heap config s)
  = if negb (String.eqb (PushAs (Options config)) "")
    then (slice.append growslice (heap s) (Tags (Options config))
                       (PushAs (Options config))).1
    else heap s.
Proof.
  unfold tagged_heap, effectiveTags, append, ret.
  destruct (negb _); [|done]. by destruct (slice.append _ _ _ _).
Qed.

(** What [NewTagger] is handed is the effective tag set. *)
Lemma handed_tag_set config s :
  slice.wf (heap s) (Tags (Options config)) →
  handed config s = tag_set (heap s) (Options config).
Proof.
  intros Hwf. unfold handed, tagged_heap, effectiveTags, append, ret, tag_set.
  destruct (String.eqb _ _); cbn [negb fst snd]; [by rewrite app_nil_r|].
  pose proof (append_contents growslice (heap s) (Tags (Options config))
                (PushAs (Options config)) Hwf) as Happ.
  by destruct (slice.append _ _ _ _).
Qed.

(** C7. The strings handed to the tagger's constructor are the
    configured tags in their order, followed by the push-as reference
    exactly when it is not empty; nothing is removed, so a push-as
    reference is among them, also when it repeats a configured tag.
    The constructor is called once, first. *)
Theorem Build_effective_tag_set b ctx config s :
  let options := Options config in
  let configured := slice.contents (heap s) (Tags options) in
  slice.wf (heap s) (Tags options) →
  (∃ evs w,
     (Build b ctx config s).1
     = after (CallNewTagger (StdoutFormatter (ProgressWriter_ config))
                            (tag_set (heap s) options) :: evs)
             w (tagged_heap config s) ∧
     forallb (λ ev, negb (is_NewTagger_call ev)) evs = true) ∧
  (PushAs options = "" → tag_set (heap s) options = configured) ∧
  (PushAs options ≠ "" →
     tag_set (heap s) options = configured ++ [PushAs options] ∧
     PushAs options ∈ tag_set (heap s) options ∧
     length (tag_set (heap s) options) = S (slice.len (Tags options))).
Proof.
  intros options configured Hwf. subst options configured.
  split; [|split].
  - rewrite <- (handed_tag_set config s Hwf). apply Build_calls.
  - intros Hempty. unfold tag_set. rewrite Hempty. simpl.
    by rewrite app_nil_r.
  - intros Hpush. apply String.eqb_neq in Hpush. unfold tag_set.
    rewrite Hpush. split; [done|]. split.
    + rewrite elem_of_app, list_elem_of_singleton. by right.
    + rewrite length_app, (contents_length_wf _ _ Hwf). simpl. lia.
Qed.

(** C10. [Build] leaves the caller's tag list as it was: after the run
    the slice [options.Tags] shows the same elements and is still
    well-formed, also when a push-as reference was appended, and the
    backing arrays of the caller's other slices are untouched.  (The
    configuration itself is a value that [Build] has no way to
    assign.) *)
Theorem Build_leaves_configured_tags b ctx config s :
  let tags := Tags (Options config) in
  let s' := (Build b ctx config s).1 in
  slice.wf (heap s) tags →
  slice.contents (heap s') tags = slice.contents (heap s) tags ∧
  slice.wf (heap s') tags ∧
  ∀ (l : slice.loc) (a : list string),
    l ≠ slice.ptr tags → heap s !! l = Some a → heap s' !! l = Some a.
Proof.
  intros tags s' Hwf. subst s'.
  destruct (Build_calls b ctx config s) as (evs & w & -> & _).
  cbn [after heap]. rewrite tagged_heap_heap. fold tags.
  destruct (negb _); [|done]. split; [|split].
  - by apply append_contents_self.
  - by apply append_wf.
  - intros l a. apply append_other_arrays.
Qed.

(** *** The push helper *)

(** C9. For a reference that parses and a repository that resolves,
    the push helper does not fail on its own: with the credential
    looked up by registry host, the zero credential when the map has no
    entry, it calls the image component's push with the full reference
    string, an empty tag, an empty header map, that credential and the
    progress output of its sink, and returns what the push returns. *)
Theorem pushImage_delegates (registry_host : IndexInfo → string)
    (zero : AuthConfig) b ctx (pushAs : string)
    (authConfigs : gmap string AuthConfig) (output : Writer) s
    (ref : Named) w1 (repoInfo : RepositoryInfo) :
  let authConfig :=
    ResolveAuthConfig_spec registry_host zero authConfigs (Index repoInfo) in
  let pushed :=
    PushImage (ImageComponent := imageComponent b) ctx (Named_String ref) ""
              ∅ authConfig (NewProgressOutput output) w1 in
  (∀ m index,
     ResolveAuthConfig m index
     = ResolveAuthConfig_spec registry_host zero m index) →
  ParseNormalizedNamed pushAs = inl ref →
  ResolveRepository (registryService b) ref (world s) = (w1, inl repoInfo) →
  pushImage b ctx pushAs authConfigs output s
  = (after [CallParseNormalizedNamed pushAs;
            CallResolveRepository ref;
            CallPushImage ctx (Named_String ref) "" ∅ authConfig
                          (NewProgressOutput output)]
           pushed.1 s,
     pushed.2) ∧
  (authConfigs !! registry_host (Index repoInfo) = None →
     authConfig = zero) ∧
  (∀ a, authConfigs !! registry_host (Index repoInfo) = Some a →
     authConfig = a).
Proof.
  intros authConfig pushed Hauth Hparse Hresolve.
  rewrite pushImage_run, Hparse. cbn zeta. rewrite Hresolve. cbn [fst snd].
  rewrite Hauth. split; [done|].
  unfold authConfig, ResolveAuthConfig_spec.
  split; [by intros ->|by intros a ->].
Qed.

(** *** Every run follows a path *)

Lemma pushImage_path b ctx (pushAs : string)
    (authConfigs : gmap string AuthConfig) (output : Writer) s :
  let p := push_path b ctx pushAs authConfigs output (world s) in
  pushImage b ctx pushAs authConfigs output s
  = (after (push_calls ctx pushAs authConfigs output p)
           (push_world (world s) p) s,
     push_error p).
Proof.
  cbn zeta. rewrite pushImage_run. unfold push_path.
  destruct (ParseNormalizedNamed pushAs) as [ref|err]; [|done].
  cbn zeta.
  by destruct (ResolveRepository _ ref (world s)) as [w [repoInfo|err]].
Qed.

Lemma Build_path b ctx config s :
  let p := build_path b ctx config (handed config s) (world s) in
  Build b ctx config s
  = (after (path_calls ctx config (handed config s) p)
           (path_world (world s) p) (tagged_heap config s),
     path_result p).
Proof.
  cbn zeta. unfold build_path.
  destruct (NewTagger (imageComponent b)
              (StdoutFormatter (ProgressWriter_ config)) (handed config s))
    as [tagger|err] eqn:Htagger;
    [|by erewrite Build_tagger_fails].
  destruct (BuildManager_Build (manager b) ctx config (world s))
    as [w1 [build|err]] eqn:Hengine; cbn [fst snd];
    [|by erewrite Build_engine_fails].
  assert (∀ w2 imageID,
    (if Squash (Options config)
     then SquashImage (ImageComponent := imageComponent b)
            (ImageID build) (baseID build) w1 = (w2, (imageID, None))
     else w2 = w1 ∧ imageID = ImageID build) →
    let t := TagImages tagger (image.ofString imageID)
               (Writer_Write (StdoutFormatter (ProgressWriter_ config))
                  (built_line imageID) w2).1 in
    let p := Tagged tagger build imageID t.1 t.2
               (if negb (String.eqb (PushAs (Options config)) "")
                then Some (push_path b ctx (PushAs (Options config))
                             (AuthConfigs (Options config))
                             (StdoutFormatter (ProgressWriter_ config)) t.1)
                else None) in
    Build b ctx config s
    = (after (path_calls ctx config (handed config s) p)
             (path_world (world s) p) (tagged_heap config s),
       path_result p)) as Htagged.
  { intros w2 imageID Hsquash t p. subst t p.
    destruct (TagImages tagger (image.ofString imageID)
                (Writer_Write (StdoutFormatter (ProgressWriter_ config))
                   (built_line imageID) w2).1) as [w4 terr] eqn:Htag.
    rewrite (Build_tagged b ctx config s tagger w1 w2 w4 build imageID terr)
      by done.
    cbn [fst snd path_calls path_world path_result].
    destruct (negb _); cbn zeta.
    - rewrite pushImage_path. cbn [fst snd after world].
      by rewrite after_after.
    - by rewrite app_nil_r. }
  destruct (Squash (Options config)) eqn:Hopt.
  - destruct (SquashImage (ImageComponent := imageComponent b)
                (ImageID build) (baseID build) w1)
      as [w2 [imageID [cause|]]] eqn:Hsquash; cbn [fst snd].
    + by erewrite Build_squash_fails.
    + by apply Htagged.
  - cbn [fst snd]. by apply Htagged.
Qed.

(** *** More on the push helper *)

(** X1. A push-as reference that does not parse: the helper returns the
    parse error, having asked neither the registry service nor the image
    component; the collaborators are left as they were. *)
Theorem pushImage_parse_error b ctx (pushAs : string)
    (authConfigs : gmap string AuthConfig) (output : Writer) s (err : error) :
  ParseNormalizedNamed pushAs = inr err →
  pushImage b ctx pushAs authConfigs output s
  = (after [CallParseNormalizedNamed pushAs] (world s) s, Some err).
Proof. intros Hparse. by rewrite pushImage_run, Hparse. Qed.

(** X2. A repository that does not resolve: the helper returns the
    resolution error and the image component's push is not called. *)
Theorem pushImage_resolve_error b ctx (pushAs : string)
    (authConfigs : gmap string AuthConfig) (output : Writer) s
    (ref : Named) w1 (err : error) :
  ParseNormalizedNamed pushAs = inl ref →
  ResolveRepository (registryService b) ref (world s) = (w1, inr err) →
  pushImage b ctx pushAs authConfigs output s
  = (after [CallParseNormalizedNamed pushAs; CallResolveRepository ref] w1 s,
     Some err).
Proof.
  intros Hparse Hresolve. rewrite pushImage_run, Hparse. cbn zeta.
  by rewrite Hresolve.
Qed.

(** X3. The helper returns [nil] exactly when the reference parsed, the
    repository resolved and the image component's push returned [nil]:
    a [nil] from [pushImage] always stands for a push that was made. *)
Theorem pushImage_nil_iff b ctx (pushAs : string)
    (authConfigs : gmap string AuthConfig) (output : Writer) s :
  (pushImage b ctx pushAs authConfigs output s).2 = None ↔
  ∃ ref w1 repoInfo,
    ParseNormalizedNamed pushAs = inl ref ∧
    ResolveRepository (registryService b) ref (world s) = (w1, inl repoInfo) ∧
    (PushImage (ImageComponent := imageComponent b) ctx (Named_String ref) ""
               ∅ (ResolveAuthConfig authConfigs (Index repoInfo))
               (NewProgressOutput output) w1).2 = None.
Proof.
  rewrite pushImage_run.
  destruct (ParseNormalizedNamed pushAs) as [ref|err].
  - cbn zeta.
    destruct (ResolveRepository _ ref (world s)) as [w1 [repoInfo|err]] eqn:Hr;
      cbn [fst snd].
    + split.
      * intros Hnil. by exists ref, w1, repoInfo.
      * intros (ref' & w1' & repoInfo' & Hp & Hr' & Hnil). simplify_eq.
        rewrite Hr in Hr'. by simplify_eq.
    + split; [done|].
      intros (ref' & w1' & repoInfo' & Hp & Hr' & _). simplify_eq.
      rewrite Hr in Hr'. by simplify_eq.
  - split; [done|]. by intros (ref' & w1' & repoInfo' & Hp & _).
Qed.

(** *** More on the squash helper *)

(** X12. [squashBuild] makes exactly one call, the squash of the built
    image against its base.  It hands on the component's identifier with
    a [nil] error when the component reports none, and otherwise drops
    whatever identifier the component returned: the result is never an
    identifier together with an error. *)
Theorem squashBuild_outcome (build : Result) (ic : image_component) s :
  let answer := SquashImage (ImageID build) (baseID build) (world s) in
  let result := (squashBuild build ic s).2 in
  (squashBuild build ic s).1
  = after [CallSquashImage (ImageID build) (baseID build)] answer.1 s ∧
  (answer.2.2 = None → result = (answer.2.1, None)) ∧
  (answer.2.2 ≠ None → result.1 = "" ∧ result.2 ≠ None) ∧
  (result.2 = None ∨ result.1 = "").
Proof.
  cbn zeta. rewrite squashBuild_run. cbn zeta. cbn [fst snd].
  destruct (SquashImage _ _ _) as [w [imageID [cause|]]]; cbn [fst snd].
  - split; [done|]. split; [done|]. split; [by intros _|by right].
  - split; [done|]. split; [done|]. split; [done|by left].
Qed.

(** *** More on [Build] *)

(** What the options say about the path of a run. *)
Lemma build_path_options b ctx config (names : list string) w0 :
  match build_path b ctx config names w0 with
  | SquashFailed _ _ _ _ => Squash (Options config) = true
  | Tagged _ _ _ w4 _ push =>
      push = if negb (String.eqb (PushAs (Options config)) "")
             then Some (push_path b ctx (PushAs (Options config))
                          (AuthConfigs (Options config))
                          (StdoutFormatter (ProgressWriter_ config)) w4)
             else None
  | _ => True
  end.
Proof.
  unfold build_path.
  destruct (NewTagger _ _ _) as [tagger|err]; [|done].
  destruct (BuildManager_Build _ _ _ _) as [w1 [build|err]]; [|done].
  cbn [fst snd]. destruct (Squash (Options config)); cbn [fst snd]; [|done].
  by destruct (SquashImage _ _ _) as [w2 [imageID [cause|]]].
Qed.

(** X4. Without a push-as reference, a run that reaches tagging ends
    there: [Build] returns the working identifier with the tagger's
    answer as it is, a tagging error included, and tagging is the last
    call. *)
Theorem Build_without_push b ctx config s (tagger : Tagger)
    w1 w2 w4 (build : Result) (imageID : string) (terr : option error) :
  let options := Options config in
  let stdout := StdoutFormatter (ProgressWriter_ config) in
  PushAs options = "" →
  NewTagger (imageComponent b) stdout (handed config s) = inl tagger →
  BuildManager_Build (manager b) ctx config (world s) = (w1, inl build) →
  (if Squash options
   then SquashImage (ImageComponent := imageComponent b)
                    (ImageID build) (baseID build) w1 = (w2, (imageID, None))
   else w2 = w1 ∧ imageID = ImageID build) →
  TagImages tagger (image.ofString imageID)
            (Writer_Write stdout (built_line imageID) w2).1 = (w4, terr) →
  Build b ctx config s
  = (after (calls_until_tagged ctx config (handed config s) tagger build
              imageID) w4 s,
     (imageID, terr)).
Proof.
  intros options stdout Hpush Htagger Hengine Hsquash Htag.
  rewrite (Build_tagged b ctx config s tagger w1 w2 w4 build imageID terr)
    by done.
  fold options. rewrite Hpush. cbn [String.eqb negb].
  unfold tagged_heap, effectiveTags. fold options. by rewrite Hpush.
Qed.

(** X9. Without a push-as reference no run of [Build], however it ends,
    makes a call of the push helper, and the heap of slice backing arrays
    is left exactly as it was: nothing is appended. *)
Theorem Build_never_pushes_unasked b ctx config s :
  PushAs (Options config) = "" →
  heap (Build b ctx config s).1 = heap s ∧
  ∃ evs w,
    (Build b ctx config s).1 = after evs w s ∧
    forallb (λ ev, negb (is_push_call ev)) evs = true.
Proof.
  intros Hpush. rewrite Build_path. cbn zeta. cbn [fst].
  assert (tagged_heap config s = s) as ->.
  { unfold tagged_heap, effectiveTags. by rewrite Hpush. }
  split; [done|]. eexists _, _. split; [reflexivity|].
  pose proof (build_path_options b ctx config (handed config s) (world s))
    as Hpath.
  destruct (build_path _ _ _ _ _) as [| | |tagger build imageID w4 terr push];
    [done..|].
  rewrite Hpush in Hpath. cbn in Hpath. subst push.
  cbn [path_calls]. rewrite app_nil_r. unfold calls_until_tagged.
  by destruct (Squash _).
Qed.

(** X6. With the squash option off no run of [Build] calls the image
    component's squash. *)
Theorem Build_never_squashes_unasked b ctx config s :
  Squash (Options config) = false →
  ∃ evs w,
    (Build b ctx config s).1 = after evs w (tagged_heap config s) ∧
    forallb (λ ev, negb (is_squash_call ev)) evs = true.
Proof.
  intros Hopt. rewrite Build_path. cbn zeta. cbn [fst].
  eexists _, _. split; [reflexivity|].
  pose proof (build_path_options b ctx config (handed config s) (world s))
    as Hpath.
  destruct (build_path _ _ _ _ _) as [| | |tagger build imageID w4 terr push];
    [done|done|congruence|].
  cbn [path_calls]. unfold calls_until_tagged. rewrite Hopt.
  by destruct push as [[| |]|].
Qed.

(** X5. In every run of [Build] the calls come in the order of the
    pipeline, each at most once: the tagger's construction, the engine,
    the squash, the completion line, the tagging, then the push helper's
    parse, resolution and push.  So a squash happens at most once and
    before any tagging, and tagging before any push. *)
Theorem Build_pipeline_order b ctx config s :
  ∃ evs w,
    (Build b ctx config s).1 = after evs w (tagged_heap config s) ∧
    StronglySorted lt (stage <$> evs).
Proof.
  rewrite Build_path. cbn zeta. cbn [fst].
  eexists _, _. split; [reflexivity|].
  destruct (build_path _ _ _ _ _) as [| | |tagger build imageID w4 terr push];
    cbn [path_calls]; unfold calls_until_tagged;
    [| | |destruct (Squash _), push as [[| |]|]];
    cbn; repeat (constructor; [|repeat constructor; lia]); constructor.
Qed.

(** X7. A run of [Build] that does not get to tagging returns the empty
    identifier and an error; a run that does returns the identifier it
    handed to the tagger. *)
Theorem Build_identifier_iff_tagged b ctx config s :
  ∃ evs w,
    (Build b ctx config s).1 = after evs w (tagged_heap config s) ∧
    (existsb is_tag_call evs = false →
       (Build b ctx config s).2.1 = "" ∧ (Build b ctx config s).2.2 ≠ None) ∧
    (existsb is_tag_call evs = true →
       ∃ t, CallTagImages t (image.ofString (Build b ctx config s).2.1) ∈ evs).
Proof.
  rewrite Build_path. cbn zeta. cbn [fst snd].
  eexists _, _. split; [reflexivity|].
  destruct (build_path _ _ _ _ _) as [| | |tagger build imageID w4 terr push];
    cbn [path_calls path_result]; [by split..|].
  unfold calls_until_tagged. split.
  - by destruct (Squash _), push as [[| |]|].
  - intros _. exists tagger.
    assert ((match push with
             | Some pp => (imageID, push_error pp)
             | None => (imageID, terr)
             end).1 = imageID) as -> by (by destruct push).
    rewrite !elem_of_app, !elem_of_cons. tauto.
Qed.

(** X8. A [nil] error from [Build] stands for the whole pipeline: the
    completion line for the returned identifier was written, that
    identifier was handed to the tagger, and with a push-as reference the
    image component's push was called on the parsed reference. *)
Theorem Build_nil_error_complete b ctx config s :
  let options := Options config in
  let stdout := StdoutFormatter (ProgressWriter_ config) in
  let imageID := (Build b ctx config s).2.1 in
  (Build b ctx config s).2.2 = None →
  ∃ evs w tagger,
    (Build b ctx config s).1 = after evs w (tagged_heap config s) ∧
    CallFprintf stdout (built_line imageID) ∈ evs ∧
    CallTagImages tagger (image.ofString imageID) ∈ evs ∧
    (PushAs options ≠ "" →
       ∃ ref auth,
         ParseNormalizedNamed (PushAs options) = inl ref ∧
         CallPushImage ctx (Named_String ref) "" ∅ auth
                       (NewProgressOutput stdout) ∈ evs).
Proof.
  cbn zeta. rewrite Build_path. cbn zeta. cbn [fst snd].
  pose proof (build_path_options b ctx config (handed config s) (world s))
    as Hpath.
  destruct (build_path _ _ _ _ _) as [| | |tagger build imageID w4 terr push];
    cbn [path_calls path_result]; [done..|].
  intros Hnil. eexists _, _, tagger. split; [reflexivity|].
  assert ((match push with
           | Some pp => (imageID, push_error pp)
           | None => (imageID, terr)
           end).1 = imageID) as -> by (by destruct push).
  unfold calls_until_tagged.
  split; [rewrite !elem_of_app, !elem_of_cons; tauto|].
  split; [rewrite !elem_of_app, !elem_of_cons; tauto|].
  intros Hpush%String.eqb_neq. rewrite Hpush in Hpath. cbn in Hpath.
  subst push. cbn [snd] in Hnil. unfold push_path in *.
  destruct (ParseNormalizedNamed _) as [ref|err]; [|done].
  cbn zeta in *.
  destruct (ResolveRepository _ ref w4) as [w5 [repoInfo|err]];
    cbn [fst snd push_error push_calls] in *; [|done].
  exists ref, (ResolveAuthConfig (AuthConfigs (Options config))
                                 (Index repoInfo)).
  split; [done|]. rewrite !elem_of_app, !elem_of_cons. tauto.
Qed.

(** X13. [Build] hands on what it was given: in every run the engine is
    called with the caller's context and configuration, the tagger and
    the completion line get the configuration's stdout formatter, and the
    push helper works on the configured push-as reference with the
    caller's context, no tag, no headers and the same formatter. *)
Theorem Build_forwards_arguments b ctx config s :
  let options := Options config in
  let stdout := StdoutFormatter (ProgressWriter_ config) in
  ∃ evs w,
    (Build b ctx config s).1 = after evs w (tagged_heap config s) ∧
    Forall (λ ev,
      match ev with
      | CallNewTagger out names => out = stdout ∧ names = handed config s
      | CallBuild c cfg => c = ctx ∧ cfg = config
      | CallFprintf out _ => out = stdout
      | CallParseNormalizedNamed name => name = PushAs options
      | CallPushImage c _ tag hdrs _ out =>
          c = ctx ∧ tag = "" ∧ hdrs = ∅ ∧ out = NewProgressOutput stdout
      | _ => True
      end) evs.
Proof.
  cbn zeta. rewrite Build_path. cbn zeta. cbn [fst].
  eexists _, _. split; [reflexivity|].
  destruct (build_path _ _ _ _ _) as [| | |tagger build imageID w4 terr push];
    cbn [path_calls]; unfold calls_until_tagged;
    [| | |destruct (Squash _), push as [[| |]|]];
    cbn; by repeat constructor.
Qed.

(** X14. The outcome of [Build] depends on the caller's memory only
    through the elements of [options.Tags]: from two states in which that
    slice is well-formed and shows the same elements, and in which the
    collaborators are in the same state, [Build] returns the same result,
    makes the same calls and leaves the collaborators in the same state,
    whatever the capacity or the backing arrays are. *)
Theorem Build_depends_on_tag_elements b ctx config s s' :
  let tags := Tags (Options config) in
  slice.wf (heap s) tags → slice.wf (heap s') tags →
  slice.contents (heap s) tags = slice.contents (heap s') tags →
  world s = world s' →
  (Build b ctx config s).2 = (Build b ctx config s').2 ∧
  world (Build b ctx config s).1 = world (Build b ctx config s').1 ∧
  ∃ evs, trace (Build b ctx config s).1 = trace s ++ evs ∧
         trace (Build b ctx config s').1 = trace s' ++ evs.
Proof.
  intros tags Hwf Hwf' Htags Hworld.
  assert (handed config s = handed config s') as Hhanded.
  { rewrite !handed_tag_set by done. unfold tag_set. fold tags.
    by rewrite Htags. }
  rewrite !Build_path. cbn zeta. cbn [fst snd after world trace].
  rewrite !tagged_heap_trace, <- Hhanded, <- Hworld.
  split; [done|]. split; [done|]. by eexists.
Qed.

(** X10. With a push-as reference and spare capacity behind the caller's
    tag list, [Build] writes the reference into the caller's backing
    array, in the cell just behind the list: the array is otherwise as it
    was, no array is allocated, and a slice of the same array that is one
    element longer shows the tags and then the reference. *)
Theorem Build_writes_spare_capacity b ctx config s (a : list string) :
  let options := Options config in
  let tags := Tags options in
  let s' := (Build b ctx config s).1 in
  slice.wf (heap s) tags →
  PushAs options ≠ "" →
  slice.len tags < slice.cap tags →
  heap s !! slice.ptr tags = Some a →
  heap s'
  = <[slice.ptr tags := <[slice.off tags + slice.len tags := PushAs options]> a]>
      (heap s) ∧
  slice.contents (heap s')
    (slice.Slice (slice.ptr tags) (slice.off tags) (S (slice.len tags))
                 (slice.cap tags))
  = slice.contents (heap s) tags ++ [PushAs options].
Proof.
  intros options tags s' Hwf Hpush%String.eqb_neq Hlt Ha. subst s'.
  rewrite Build_path. cbn zeta. cbn [fst after heap].
  rewrite tagged_heap_heap. fold options tags. rewrite Hpush. cbn [negb].
  pose proof (append_contents growslice (heap s) tags (PushAs options) Hwf)
    as Happ.
  unfold slice.append in *. rewrite Ha in *.
  by rewrite decide_True in * by done.
Qed.

(** X11. With a push-as reference and no spare capacity, [Build] copies
    the tags into an array of its own: the heap after the run is the heap
    before it with one array added at a location that was free, so every
    array of the caller is exactly as it was. *)
Theorem Build_allocates_when_full b ctx config s :
  let options := Options config in
  let tags := Tags options in
  let s' := (Build b ctx config s).1 in
  slice.wf (heap s) tags →
  PushAs options ≠ "" →
  slice.cap tags ≤ slice.len tags →
  (∃ (l : slice.loc) (arr : list string),
     heap s !! l = None ∧ heap s' = <[l := arr]> (heap s) ∧
     take (S (slice.len tags)) arr
     = slice.contents (heap s) tags ++ [PushAs options])
  ∧ ∀ (l : slice.loc) (arr : list string),
      heap s !! l = Some arr → heap s' !! l = Some arr.
Proof.
  intros options tags s' Hwf Hpush%String.eqb_neq Hfull. subst s'.
  rewrite Build_path. cbn zeta. cbn [fst after heap].
  rewrite tagged_heap_heap. fold options tags. rewrite Hpush. cbn [negb].
  assert ((slice.append growslice (heap s) tags (PushAs options)).1
          = (slice.grow_append growslice (heap s) tags (PushAs options)).1)
    as ->.
  { unfold slice.append. destruct (heap s !! slice.ptr tags); [|done].
    by rewrite decide_False by lia. }
  unfold slice.grow_append. cbn [fst].
  pose proof (fresh_unallocated (heap s)) as Hfresh. split.
  - eexists _, _. split; [done|]. split; [done|].
    rewrite <- (contents_length_wf (heap s) tags Hwf).
    replace (S (length (slice.contents (heap s) tags)))
      with (length (slice.contents (heap s) tags) + 1) by lia.
    by rewrite take_app_add'.
  - intros l arr Hl. rewrite lookup_insert_ne; [done|]. congruence.
Qed.

(** A path past the constructor carries the tagger it returned. *)
Lemma build_path_tagger b ctx config (names : list string) w0 :
  match build_path b ctx config names w0 with
  | TaggerFailed _ => True
  | EngineFailed tagger _ _ | SquashFailed tagger _ _ _
  | Tagged tagger _ _ _ _ _ =>
      NewTagger (imageComponent b) (StdoutFormatter (ProgressWriter_ config))
                names = inl tagger
  end.
Proof.
  unfold build_path.
  destruct (NewTagger _ _ _) as [tagger|err]; [|done].
  destruct (BuildManager_Build _ _ _ _) as [w1 [build|err]]; [|done].
  cbn [fst snd].
  by destruct (if Squash (Options config) then _ else _)
    as [w2 [imageID [cause|]]].
Qed.

(** X15. The push-as reference is among the strings the tagger's
    constructor is handed.  So when that constructor only accepts names
    that parse, the push helper's parse cannot fail inside [Build]: in
    every run in which the helper parses the reference, the parse
    succeeds and the registry service is asked to resolve it. *)
Theorem Build_push_reference_parses b ctx config s :
  let options := Options config in
  (∀ ic out names (tagger : Tagger),
     NewTagger ic out names = inl tagger →
     ∀ name, name ∈ names → ∃ ref, ParseNormalizedNamed name = inl ref) →
  slice.wf (heap s) (Tags options) →
  ∃ evs w,
    (Build b ctx config s).1 = after evs w (tagged_heap config s) ∧
    (CallParseNormalizedNamed (PushAs options) ∈ evs →
       ∃ ref, ParseNormalizedNamed (PushAs options) = inl ref ∧
              CallResolveRepository ref ∈ evs).
Proof.
  intros options Hvalid Hwf. rewrite Build_path. cbn zeta. cbn [fst].
  eexists _, _. split; [reflexivity|].
  pose proof (build_path_options b ctx config (handed config s) (world s))
    as Hpath.
  pose proof (build_path_tagger b ctx config (handed config s) (world s))
    as Htagger.
  destruct (build_path _ _ _ _ _) as [| | |tagger build imageID w4 terr push];
    cbn [path_calls].
  - rewrite list_elem_of_singleton. done.
  - rewrite !elem_of_cons, elem_of_nil. by intros [|[|]].
  - rewrite !elem_of_cons, elem_of_nil. by intros [|[|[|]]].
  - fold options in Hpath.
    destruct (String.eqb (PushAs options) "") eqn:Hpush; cbn in Hpath;
      subst push.
    + rewrite app_nil_r. unfold calls_until_tagged.
      rewrite !elem_of_app, !elem_of_cons, elem_of_nil.
      intros [[|[|[]]]|[Hin|[|[|[]]]]]; try done.
      destruct (Squash _); [|by apply elem_of_nil in Hin].
      by apply list_elem_of_singleton in Hin.
    + intros _. apply String.eqb_neq in Hpush.
      destruct (Hvalid _ _ _ _ Htagger (PushAs options)) as [ref Href].
      { rewrite handed_tag_set by done. unfold tag_set. fold options.
        apply String.eqb_neq in Hpush. rewrite Hpush.
        rewrite elem_of_app, list_elem_of_singleton. by right. }
      exists ref. split; [done|]. unfold push_path. rewrite Href. cbn zeta.
      rewrite elem_of_app. right.
      destruct (ResolveRepository _ ref w4) as [w5 [repoInfo|err]];
        cbn [fst snd push_calls]; rewrite !elem_of_cons; tauto.
Qed.

End build_facts.

(** ** The tagger's constructor as the specification describes it *)

Section tagger_facts.

Context {W Ctx Writer Named AuthConfig : Type}.
Variable parse : string → Named + error.

#[local] Abbreviation image_component' := (ImageComponent (W := W)
  (Ctx := Ctx) (Writer := Writer) (Named := Named)
  (AuthConfig := AuthConfig)).

(** Parsing the names fails exactly when some name does not parse. *)
Lemma parse_all_fails (names : list string) :
  (∃ err, parse_all parse names = inr err) ↔
  Exists (λ name, ∃ err, parse name = inr err) names.
Proof.
  induction names as [|name names IH]; simpl.
  - rewrite Exists_nil. split; [intros [err Herr]; discriminate|done].
  - rewrite Exists_cons.
    destruct (parse name) as [ref|err] eqn:Hname.
    + destruct (parse_all parse names) as [refs|err] eqn:Hrest.
      * split; [intros [err Herr]; discriminate|].
        intros [[err Herr]|Hex]; [discriminate|].
        apply IH in Hex as [err Herr]. discriminate.
      * split; intros _; [right; apply IH|]; by exists err.
    + split; intros _; [left|]; by exists err.
Qed.

(** So does the constructor, with the error of the first such name. *)
Lemma NewTagger_spec_fails (ic : image_component') (stdout : Writer)
    (names : list string) :
  (∃ err, NewTagger_spec parse ic stdout names = inr err) ↔
  Exists (λ name, ∃ err, parse name = inr err) names.
Proof.
  rewrite <- parse_all_fails. unfold NewTagger_spec.
  destruct (parse_all parse names) as [refs|err].
  - split; intros [err Herr]; discriminate.
  - split; intros _; by exists err.
Qed.

(** A tagger is built only from names that all parse. *)
Lemma NewTagger_spec_accepts (ic : image_component') (stdout : Writer)
    (names : list string) (tagger : SpecTagger) :
  NewTagger_spec parse ic stdout names = inl tagger →
  ∀ name, name ∈ names → ∃ ref, parse name = inl ref.
Proof.
  intros Hok name Hin.
  destruct (parse name) as [ref|err] eqn:Hname; [by exists ref|].
  assert (∃ err, NewTagger_spec parse ic stdout names = inr err) as [e He].
  { apply NewTagger_spec_fails, Exists_exists. exists name.
    split; [done|by exists err]. }
  congruence.
Qed.

End tagger_facts.

(** ** The scenarios of the specification, on the test double *)

(** Scenario 1: tags, no squash, no push; tagging succeeds. *)
Example scenario_1 :
  (double.run ["a:latest"] "" false double.happy).2 = ("abc123", None).
Proof. reflexivity. Qed.

(** Scenario 2: the same, tagging fails with [E]. *)
Example scenario_2 :
  (double.run ["a:latest"] "" false double.tag_fails).2
  = ("abc123", Some double.E).
Proof. reflexivity. Qed.

(** Scenario 3: push-as set; tagging succeeds, push fails with [P]. *)
Example scenario_3 :
  (double.run ["a:latest"] "a:latest" false double.push_fails).2
  = ("abc123", Some double.P).
Proof. reflexivity. Qed.

(** Scenario 4: squash of a build on the base image "base1". *)
Example scenario_4 :
  let r := double.run ["a:latest"] "a:latest" true double.happy in
  r.2 = ("sq456", None) ∧
  trace r.1 =
  [CallNewTagger "stdout" ["a:latest"; "a:latest"];
   CallBuild () (double.config ["a:latest"] "a:latest" true);
   CallSquashImage "abc123" "base1";
   CallFprintf "stdout" ("Successfully built sq456" +:+ LF);
   CallTagImages
     (double.tagger_of
        ["docker.io/library/a:latest"; "docker.io/library/a:latest"])
     (image.ofString "sq456");
   CallParseNormalizedNamed "a:latest";
   CallResolveRepository "docker.io/library/a:latest";
   CallPushImage () "docker.io/library/a:latest" "" ∅ ""
                 (NewProgressOutput "stdout")].
Proof. split; reflexivity. Qed.

(** Scenario 5: the engine fails with [B]. *)
Example scenario_5 :
  let r := double.run ["a:latest"] "a:latest" true double.engine_fails in
  r.2 = ("", Some double.B) ∧
  trace r.1 =
  [CallNewTagger "stdout" ["a:latest"; "a:latest"];
   CallBuild () (double.config ["a:latest"] "a:latest" true)].
Proof. split; reflexivity. Qed.

(** Scenario 6: the squash fails with cause [C]. *)
Example scenario_6 :
  let r := double.run ["a:latest"] "a:latest" true double.squash_fails in
  r.2 = ("", Some (errors.withMessage double.C "error squashing image")) ∧
  errors.Error (errors.withMessage double.C "error squashing image")
  = "error squashing image: squash failed" ∧
  trace r.1 =
  [CallNewTagger "stdout" ["a:latest"; "a:latest"];
   CallBuild () (double.config ["a:latest"] "a:latest" true);
   CallSquashImage "abc123" "base1"].
Proof. repeat split; reflexivity. Qed.

(** [append] writes into spare capacity of the caller's backing array:
    the caller's one-element slice still shows its element, while the
    array cell behind it now holds the push-as reference. *)
Example append_uses_spare_capacity :
  let s' := (Build double.backend () double.roomy_config double.roomy_start).1 in
  slice.contents (heap s') double.roomy_tags = ["a:latest"] ∧
  heap s' !! 1%positive = Some ["a:latest"; "b:1"].
Proof. split; reflexivity. Qed.

(** ** The theorems at concrete runs *)

(** An invalid reference among the tags: the constructor rejects it. *)
Lemma Build_tagger_error_witness :
  (double.run ["a:latest"; "bad ref"] "" false double.happy).2
  = ("", Some (errors.New "invalid reference format")) ∧
  trace (double.run ["a:latest"; "bad ref"] "" false double.happy).1
  = [CallNewTagger "stdout" ["a:latest"; "bad ref"]] ∧
  world (double.run ["a:latest"; "bad ref"] "" false double.happy).1
  = double.happy.
Proof.
  apply (Build_tagger_error double.backend ()
           (double.config ["a:latest"; "bad ref"] "" false)
           (double.start ["a:latest"; "bad ref"] double.happy)
           (errors.New "invalid reference format")).
  reflexivity.
Defined.

Lemma Build_engine_error_witness :
  (double.run ["a:latest"] "a:latest" true double.engine_fails).2
  = ("", Some double.B) ∧
  trace (double.run ["a:latest"] "a:latest" true double.engine_fails).1
  = [CallNewTagger "stdout" ["a:latest"; "a:latest"];
     CallBuild () (double.config ["a:latest"] "a:latest" true)] ∧
  world (double.run ["a:latest"] "a:latest" true double.engine_fails).1
  = double.engine_fails.
Proof.
  apply (Build_engine_error double.backend ()
           (double.config ["a:latest"] "a:latest" true)
           (double.start ["a:latest"] double.engine_fails)
           (double.tagger_of
              ["docker.io/library/a:latest"; "docker.io/library/a:latest"])
           double.engine_fails double.B);
    reflexivity.
Defined.

Lemma Build_squash_error_witness :
  (double.run ["a:latest"] "a:latest" true double.squash_fails).2
  = ("", Some (errors.withMessage double.C "error squashing image")).
Proof.
  apply (Build_squash_error double.backend ()
           (double.config ["a:latest"] "a:latest" true)
           (double.start ["a:latest"] double.squash_fails)
           (double.tagger_of
              ["docker.io/library/a:latest"; "docker.io/library/a:latest"])
           double.squash_fails double.squash_fails double.built ""
           double.C);
    reflexivity.
Defined.

(** Tagging fails with [E], push succeeds: the run returns no error. *)
Lemma Build_push_replaces_tag_outcome_witness :
  (double.run ["a:latest"] "a:latest" false double.tag_fails).2
  = ("abc123", None).
Proof.
  apply (Build_push_replaces_tag_outcome double.backend ()
           (double.config ["a:latest"] "a:latest" false)
           (double.start ["a:latest"] double.tag_fails)
           (double.tagger_of
              ["docker.io/library/a:latest"; "docker.io/library/a:latest"])
           double.tag_fails double.tag_fails double.tag_fails double.built
           "abc123" (Some double.E)).
  - apply String.eqb_neq. reflexivity.
  - reflexivity.
  - reflexivity.
  - split; reflexivity.
  - reflexivity.
  - reflexivity.
Defined.

(** Tagging succeeds, push fails with [P]: the run returns [P]. *)
Lemma Build_push_outcome_wins_witness :
  (double.run ["a:latest"] "a:latest" false double.push_fails).2.2
  = Some double.P.
Proof.
  apply (Build_push_outcome_wins double.backend ()
           (double.config ["a:latest"] "a:latest" false)
           (double.start ["a:latest"] double.push_fails)
           (double.tagger_of
              ["docker.io/library/a:latest"; "docker.io/library/a:latest"])
           double.push_fails double.push_fails double.push_fails double.built
           "abc123" None).
  - apply String.eqb_neq. reflexivity.
  - reflexivity.
  - reflexivity.
  - split; reflexivity.
  - reflexivity.
  - reflexivity.
Defined.

(** C2 as stated fails: tagging fails with [E] and the push helper then
    succeeds, yet the error [Build] returns is not the tag error [E]; it
    is [nil]. *)
Lemma Build_tag_error_dropped :
  PushAs (Options (double.config ["a:latest"] "a:latest" false)) ≠ "" ∧
  TagImages
    (double.tagger_of
       ["docker.io/library/a:latest"; "docker.io/library/a:latest"])
    (image.ofString "abc123") double.tag_fails
  = (double.tag_fails, Some double.E) ∧
  (pushImage double.backend () "a:latest" ∅ "stdout"
     (after (calls_until_tagged ()
               (double.config ["a:latest"] "a:latest" false)
               ["a:latest"; "a:latest"]
               (double.tagger_of
                  ["docker.io/library/a:latest"; "docker.io/library/a:latest"])
               double.built "abc123")
            double.tag_fails
            (tagged_heap (double.config ["a:latest"] "a:latest" false)
                         (double.start ["a:latest"] double.tag_fails)))).2
  = None ∧
  (double.run ["a:latest"] "a:latest" false double.tag_fails).2.2
  ≠ Some double.E ∧
  (double.run ["a:latest"] "a:latest" false double.tag_fails).2
  = ("abc123", None).
Proof. repeat split; (reflexivity || discriminate). Qed.

(** Scenario 4 again: the squashed identifier is the one returned. *)
Lemma Build_squashed_identifier_witness :
  (double.run ["a:latest"] "a:latest" true double.happy).2.1 = "sq456".
Proof.
  apply (Build_squashed_identifier double.backend ()
           (double.config ["a:latest"] "a:latest" true)
           (double.start ["a:latest"] double.happy)
           (double.tagger_of
              ["docker.io/library/a:latest"; "docker.io/library/a:latest"])
           double.happy double.happy double.happy double.built
           "sq456" None);
    reflexivity.
Defined.

Lemma Build_tags_final_identifier_witness :
  (double.run ["a:latest"] "a:latest" false double.happy).2.1 = "abc123".
Proof.
  apply (Build_tags_final_identifier double.backend ()
           (double.config ["a:latest"] "a:latest" false)
           (double.start ["a:latest"] double.happy)
           (double.tagger_of
              ["docker.io/library/a:latest"; "docker.io/library/a:latest"])
           double.happy double.happy double.happy double.built
           "abc123" None).
  - reflexivity.
  - reflexivity.
  - split; reflexivity.
  - reflexivity.
Defined.

(** C6 as stated fails for the push operation: in scenario 3 with a
    successful push the final identifier is "abc123", and the image
    argument of the push is the normalized reference, not that
    identifier. *)
Lemma Build_push_not_handed_identifier :
  (double.run ["a:latest"] "a:latest" false double.happy).2
  = ("abc123", None) ∧
  CallPushImage () "docker.io/library/a:latest" "" ∅ ""
                (NewProgressOutput "stdout")
  ∈ trace (double.run ["a:latest"] "a:latest" false double.happy).1 ∧
  "docker.io/library/a:latest"
  ≠ (double.run ["a:latest"] "a:latest" false double.happy).2.1.
Proof.
  split; [reflexivity|]. split; [|discriminate].
  apply list_elem_of_In. vm_compute. tauto.
Qed.

(** A push-as reference that repeats a configured tag stays twice in the
    effective tag set. *)
Lemma Build_effective_tag_set_witness :
  tag_set (heap (double.start ["a:latest"] double.happy))
          (Options (double.config ["a:latest"] "a:latest" false))
  = ["a:latest"] ++ ["a:latest"].
Proof.
  apply (Build_effective_tag_set double.backend ()
           (double.config ["a:latest"] "a:latest" false)
           (double.start ["a:latest"] double.happy)).
  - split; [simpl; lia|]. right. eexists. split; [reflexivity|simpl; lia].
  - apply String.eqb_neq. reflexivity.
Defined.

(** The roomy caller: [append] writes behind the one-element slice, and
    the slice still shows its one element. *)
Lemma Build_leaves_configured_tags_witness :
  slice.contents
    (heap (Build double.backend () double.roomy_config double.roomy_start).1)
    double.roomy_tags
  = slice.contents (heap double.roomy_start) double.roomy_tags.
Proof.
  apply (Build_leaves_configured_tags double.backend ()
           double.roomy_config double.roomy_start).
  split; [simpl; lia|]. right. eexists. split; [reflexivity|simpl; lia].
Defined.

(** No credential for "docker.io" in the map: the zero credential. *)
Lemma pushImage_delegates_witness :
  pushImage double.backend () "a:latest" ∅ "stdout"
            (double.start ["a:latest"] double.push_fails)
  = (after [CallParseNormalizedNamed "a:latest";
            CallResolveRepository "docker.io/library/a:latest";
            CallPushImage () "docker.io/library/a:latest" "" ∅ ""
                          (NewProgressOutput "stdout")]
           double.push_fails (double.start ["a:latest"] double.push_fails),
     Some double.P).
Proof.
  etrans.
  - apply (pushImage_delegates (λ host : string, host) "" double.backend ()
             "a:latest" ∅ "stdout"
             (double.start ["a:latest"] double.push_fails)
             "docker.io/library/a:latest" double.push_fails
             {| Index := "docker.io" |}).
    + intros m index. reflexivity.
    + reflexivity.
    + reflexivity.
  - vm_compute. reflexivity.
Defined.

(** ** The further theorems at concrete runs *)

Lemma pushImage_parse_error_witness :
  pushImage double.backend () "bad ref" ∅ "stdout"
            (double.start ["a:latest"] double.happy)
  = (after [CallParseNormalizedNamed "bad ref"] double.happy
           (double.start ["a:latest"] double.happy),
     Some (errors.New "invalid reference format")).
Proof.
  apply (pushImage_parse_error double.backend () "bad ref" ∅ "stdout"
           (double.start ["a:latest"] double.happy)
           (errors.New "invalid reference format")).
  reflexivity.
Defined.

Lemma pushImage_resolve_error_witness :
  pushImage double.backend () "a:latest" ∅ "stdout"
            (double.start ["a:latest"] double.resolve_fails)
  = (after [CallParseNormalizedNamed "a:latest";
            CallResolveRepository "docker.io/library/a:latest"]
           double.resolve_fails
           (double.start ["a:latest"] double.resolve_fails),
     Some double.R).
Proof.
  apply (pushImage_resolve_error double.backend () "a:latest" ∅ "stdout"
           (double.start ["a:latest"] double.resolve_fails)
           "docker.io/library/a:latest" double.resolve_fails double.R);
    reflexivity.
Defined.

(** Scenario 2: the tagging error is what [Build] returns. *)
Lemma Build_without_push_witness :
  (double.run ["a:latest"] "" false double.tag_fails).2
  = ("abc123", Some double.E).
Proof.
  refine (f_equal snd
            (Build_without_push double.backend ()
               (double.config ["a:latest"] "" false)
               (double.start ["a:latest"] double.tag_fails)
               (double.tagger_of ["docker.io/library/a:latest"])
               double.tag_fails double.tag_fails double.tag_fails double.built
               "abc123" (Some double.E) _ _ _ _ _)).
  - reflexivity.
  - reflexivity.
  - reflexivity.
  - split; reflexivity.
  - reflexivity.
Defined.

Lemma Build_never_pushes_unasked_witness :
  heap (double.run ["a:latest"] "" true double.happy).1
  = heap (double.start ["a:latest"] double.happy).
Proof.
  apply (Build_never_pushes_unasked double.backend ()
           (double.config ["a:latest"] "" true)
           (double.start ["a:latest"] double.happy)).
  reflexivity.
Defined.

Lemma Build_never_squashes_unasked_witness :
  ∃ evs w,
    (double.run ["a:latest"] "a:latest" false double.happy).1
    = after evs w (tagged_heap (double.config ["a:latest"] "a:latest" false)
                               (double.start ["a:latest"] double.happy)) ∧
    forallb (λ ev, negb (is_squash_call ev)) evs = true.
Proof.
  apply (Build_never_squashes_unasked double.backend ()
           (double.config ["a:latest"] "a:latest" false)
           (double.start ["a:latest"] double.happy)).
  reflexivity.
Defined.

(** Scenario 4 ends without error: all of the pipeline ran. *)
Lemma Build_nil_error_complete_witness :
  ∃ evs tagger,
    trace (double.run ["a:latest"] "a:latest" true double.happy).1 = evs ∧
    CallFprintf "stdout" (built_line "sq456") ∈ evs ∧
    CallTagImages tagger (image.ofString "sq456") ∈ evs.
Proof.
  destruct (Build_nil_error_complete double.backend ()
              (double.config ["a:latest"] "a:latest" true)
              (double.start ["a:latest"] double.happy))
    as (evs & w & tagger & Hrun & Hline & Htag & _).
  - reflexivity.
  - exists evs, tagger. unfold double.run. rewrite Hrun.
    split; [reflexivity|]. split; assumption.
Defined.

(** Two callers with the tag list ["a:latest"] in different memory. *)
Lemma Build_depends_on_tag_elements_witness :
  (Build double.backend () double.roomy_config double.roomy_start).2
  = (Build double.backend () double.roomy_config double.roomy_other).2.
Proof.
  apply (Build_depends_on_tag_elements double.backend ()
           double.roomy_config double.roomy_start double.roomy_other).
  - split; [simpl; lia|]. right. eexists. split; [reflexivity|simpl; lia].
  - split; [simpl; lia|]. right. eexists. split; [reflexivity|simpl; lia].
  - reflexivity.
  - reflexivity.
Defined.

(** The roomy caller: the cell behind the tag list is overwritten. *)
Lemma Build_writes_spare_capacity_witness :
  heap (Build double.backend () double.roomy_config double.roomy_start).1
  = <[1%positive := <[0 + 1 := "b:1"]> ["a:latest"; "spare"]]>
      (heap double.roomy_start).
Proof.
  apply (Build_writes_spare_capacity double.backend ()
           double.roomy_config double.roomy_start ["a:latest"; "spare"]).
  - split; [simpl; lia|]. right. eexists. split; [reflexivity|simpl; lia].
  - apply String.eqb_neq. reflexivity.
  - simpl. lia.
  - reflexivity.
Defined.

(** A caller whose tag list fills its array: the array is left alone. *)
Lemma Build_allocates_when_full_witness :
  heap (double.run ["a:latest"] "a:latest" false double.happy).1 !! 1%positive
  = Some ["a:latest"].
Proof.
  apply (Build_allocates_when_full double.backend ()
           (double.config ["a:latest"] "a:latest" false)
           (double.start ["a:latest"] double.happy)).
  - split; [simpl; lia|]. right. eexists. split; [reflexivity|simpl; lia].
  - apply String.eqb_neq. reflexivity.
  - simpl. lia.
  - reflexivity.
Defined.

(** The double's constructor accepts only names that parse, so in
    scenario 4 the helper's parse succeeds and the resolution is asked. *)
Lemma Build_push_reference_parses_witness :
  ∃ evs w,
    (double.run ["a:latest"] "a:latest" true double.happy).1
    = after evs w (tagged_heap (double.config ["a:latest"] "a:latest" true)
                               (double.start ["a:latest"] double.happy)) ∧
    (CallParseNormalizedNamed
       (PushAs (Options (double.config ["a:latest"] "a:latest" true))) ∈ evs →
     ∃ ref,
       ParseNormalizedNamed
         (PushAs (Options (double.config ["a:latest"] "a:latest" true)))
       = inl ref ∧
       CallResolveRepository ref ∈ evs).
Proof.
  apply (Build_push_reference_parses double.backend ()
           (double.config ["a:latest"] "a:latest" true)
           (double.start ["a:latest"] double.happy)).
  - intros ic out names tagger. apply NewTagger_spec_accepts.
  - split; [simpl; lia|]. right. eexists. split; [reflexivity|simpl; lia].
Defined.
